(** * Frame parser and encoder of the websockets server (src/lib/frame.ts)

    A shallow embedding of [WebsocketParser] ([createFrame], [readFrame],
    [readFragmentedBuffer], [clearFrames]), of [unmask] and of the socket
    [data] handler of the README that drives [readFrame].

    - A Node [Buffer] is a [list Z] of byte values.
    - Node's buffer accessors that throw ([readUInt8], [readUInt16BE],
      [readUInt32BE], [writeUInt8], [writeUInt16BE]) return a [result];
      [slice] clamps to the buffer, as Node's does.
    - The parser object is a record threaded through the calls; a method
      that throws returns the state reached at the throw, since the JS
      mutations done before it are kept. *)

From Stdlib Require Import ZArith List Lia Bool Arith.
Import ListNotations.

(* ------------------------------------------------------------------ *)
(** ** Exceptions and the result monad *)

Inductive ClosureStatus := PROTOCOL_ERROR.

Inductive exn :=
  (** [new WebSocketError(ClosureStatus.PROTOCOL_ERROR)] *)
  | WebSocketError (status : ClosureStatus)
  (** [new Error('Payload with 8 byte length is not supported')] *)
  | UnsupportedLengthError
  (** Node's [ERR_OUT_OF_RANGE] / [ERR_BUFFER_OUT_OF_BOUNDS] *)
  | RangeError.

Inductive result (A : Type) : Type :=
  | Ok (a : A)
  | Err (e : exn).
Arguments Ok {A} a.
Arguments Err {A} e.

Definition bind {A B} (m : result A) (k : A -> result B) : result B :=
  match m with Ok a => k a | Err e => Err e end.

Notation "x <- m ;; k" := (bind m (fun x => k))
  (at level 61, m at next level, right associativity).
Notation "' p <- m ;; k" := (bind m (fun x => match x with p => k end))
  (at level 61, p pattern, m at next level, right associativity).

(* ------------------------------------------------------------------ *)
(** ** Node buffers *)

Definition buffer := list Z.

Definition byte_ok (v : Z) : Prop := (0 <= v <= 255)%Z.

(** [Buffer.alloc(n)]: [n] zero bytes. *)
Definition alloc (n : nat) : buffer := repeat 0%Z n.

(** [buf.slice(s, e)] for [0 <= s], [0 <= e]: clamped to the buffer. *)
Definition slice (b : buffer) (s e : nat) : buffer := firstn (e - s) (skipn s b).

(** [buf.slice(s)] *)
Definition slice_from (b : buffer) (s : nat) : buffer := skipn s b.

(** [buf[i]] used as an operand of [^]: out of range it is [undefined],
    which [^] converts to 0. *)
Definition get (b : buffer) (i : nat) : Z := nth i b 0%Z.

Definition readUInt8 (b : buffer) (off : nat) : result Z :=
  match nth_error b off with Some v => Ok v | None => Err RangeError end.

Definition readUInt16BE (b : buffer) (off : nat) : result Z :=
  if off + 2 <=? length b
  then Ok (get b off * 256 + get b (off + 1))%Z
  else Err RangeError.

Definition readUInt32BE (b : buffer) (off : nat) : result Z :=
  if off + 4 <=? length b
  then Ok (((get b off * 256 + get b (off + 1)) * 256 + get b (off + 2)) * 256
           + get b (off + 3))%Z
  else Err RangeError.

Fixpoint set_nth (b : buffer) (i : nat) (v : Z) : buffer :=
  match b, i with
  | [], _ => []
  | _ :: b', O => v :: b'
  | x :: b', S i' => x :: set_nth b' i' v
  end.

(** [buf.writeUInt8(v, off)]: throws when [v] is not a byte or [off] is
    past the end. *)
Definition writeUInt8 (b : buffer) (v : Z) (off : nat) : result buffer :=
  if (0 <=? v)%Z && (v <=? 255)%Z && (off <? length b)
  then Ok (set_nth b off v) else Err RangeError.

Definition writeUInt16BE (b : buffer) (v : Z) (off : nat) : result buffer :=
  if (0 <=? v)%Z && (v <=? 65535)%Z && (off + 2 <=? length b)
  then Ok (set_nth (set_nth b off (v / 256)) (off + 1) (v mod 256))
  else Err RangeError.

(** [Buffer.concat([a, b], totalLength)]: the bytes of [a] then [b],
    truncated to [totalLength], zero-filled up to it. *)
Definition concat2 (a b : buffer) (totalLength : nat) : buffer :=
  firstn totalLength (a ++ b) ++ repeat 0%Z (totalLength - length (a ++ b)).

(* ------------------------------------------------------------------ *)
(** ** [unmask] *)

(** [payload[i] = rawPayload[i] ^ maskingKey[i % 4]] for [i < payloadLen];
    for byte operands the written value is a byte, so [writeUInt8] does
    not throw. *)
Definition unmask (rawPayload : buffer) (payloadLen : nat) (maskingKey : buffer)
  : buffer :=
  map (fun i => Z.lxor (get rawPayload i) (get maskingKey (i mod 4)))
      (seq 0 payloadLen).

(** The loop of [unmask] as written, with its [writeUInt8] calls:
    [for (i = 0; i < payloadLen; i++) payload.writeUInt8(rawPayload[i] ^
    maskingKey[i % 4], i)], starting from [Buffer.alloc(payloadLen)]. *)
Fixpoint unmask_loop (rawPayload maskingKey payload : buffer) (i remaining : nat)
  : result buffer :=
  match remaining with
  | O => Ok payload
  | S remaining' =>
      let j := i mod 4 in
      let decoded := Z.lxor (get rawPayload i) (get maskingKey j) in
      payload' <- writeUInt8 payload decoded i ;;
      unmask_loop rawPayload maskingKey payload' (S i) remaining'
  end.

Definition unmask_writes (rawPayload : buffer) (payloadLen : nat) (maskingKey : buffer)
  : result buffer :=
  unmask_loop rawPayload maskingKey (alloc payloadLen) 0 payloadLen.

(* ------------------------------------------------------------------ *)
(** ** [createFrame] *)

Record ICreateFrameOptions := mkOptions { o_opcode : Z; o_fin : bool }.

Definition generateFirstByte (options : ICreateFrameOptions) : Z :=
  let opcode := o_opcode options in
  let fin := o_fin options in
  if (opcode =? 1)%Z && fin then 129%Z
  else if (opcode =? 1)%Z && negb fin then 1%Z
  else if (opcode =? 2)%Z && fin then 130%Z
  else 2%Z.

(** The loop [for (i = 0; i < dataLen; i++) rawFrame.writeUInt8(payload[i],
    byteOffset++)]. *)
Fixpoint copyPayload (rawFrame : buffer) (payload : buffer) (byteOffset : nat)
  : result buffer :=
  match payload with
  | [] => Ok rawFrame
  | p :: payload' =>
      rawFrame' <- writeUInt8 rawFrame p byteOffset ;;
      copyPayload rawFrame' payload' (S byteOffset)
  end.

Definition createFrame (payload : buffer) (options : ICreateFrameOptions)
  : result buffer :=
  let dataLen := length payload in
  let firstByte := generateFirstByte options in
  let payloadLen := if dataLen =? 126 then 126 else dataLen in
  let frameSize := 2 + (if dataLen =? 126 then 2 else 0) + dataLen in
  let rawFrame := alloc frameSize in
  rawFrame <- writeUInt8 rawFrame firstByte 0 ;;
  rawFrame <- writeUInt8 rawFrame (Z.of_nat payloadLen) 1 ;;
  let byteOffset := 2 in
  '(rawFrame, byteOffset) <-
     (if dataLen =? 126
      then rawFrame <- writeUInt16BE rawFrame (Z.of_nat dataLen) byteOffset ;;
           Ok (rawFrame, S byteOffset)
      else Ok (rawFrame, byteOffset)) ;;
  copyPayload rawFrame payload byteOffset.

(* ------------------------------------------------------------------ *)
(** ** The parser state *)

(** [IFrame] *)
Record IFrame := mkFrame {
  fin : bool; rsv1 : Z; rsv2 : Z; rsv3 : Z; opcode : Z; mask : bool;
  payloadLen : nat; payload : buffer; frameLen : nat }.

(** [IFragmentedFrame] *)
Record IFragmentedFrame := mkFragmented {
  ff_fin : bool; ff_rsv1 : Z; ff_rsv2 : Z; ff_rsv3 : Z; ff_mask : bool;
  ff_opcode : Z; ff_payloadLen : nat; ff_rawPayload : buffer;
  ff_maskingKey : buffer; ff_byteOffset : nat }.

(** The fields of [WebsocketParser]. *)
Record WebsocketParser := mkParser {
  parsedFrames : list IFrame;
  fragmentedFrame : option IFragmentedFrame }.

(** [new WebsocketParser()] *)
Definition newParser : WebsocketParser := mkParser [] None.

Definition pushFrame (st : WebsocketParser) (f : IFrame) : WebsocketParser :=
  mkParser (parsedFrames st ++ [f]) (fragmentedFrame st).

Definition setFragmented (st : WebsocketParser) (ff : option IFragmentedFrame)
  : WebsocketParser := mkParser (parsedFrames st) ff.

Definition setRawPayload (ff : IFragmentedFrame) (raw : buffer) : IFragmentedFrame :=
  mkFragmented (ff_fin ff) (ff_rsv1 ff) (ff_rsv2 ff) (ff_rsv3 ff) (ff_mask ff)
    (ff_opcode ff) (ff_payloadLen ff) raw (ff_maskingKey ff) (ff_byteOffset ff).

(** [clearFrames()] *)
Definition clearFrames (st : WebsocketParser) : WebsocketParser :=
  mkParser [] (fragmentedFrame st).

(** [frames] getter *)
Definition frames (st : WebsocketParser) : list IFrame := parsedFrames st.

(* ------------------------------------------------------------------ *)
(** ** [readFragmentedBuffer] *)

Definition readFragmentedBuffer (st : WebsocketParser) (chunk : buffer)
  : WebsocketParser * buffer :=
  match fragmentedFrame st with
  | None => (st, chunk)
  | Some ff =>
      let remainingByteLen := ff_payloadLen ff - length (ff_rawPayload ff) in
      if length chunk <? remainingByteLen then
        let raw := concat2 (ff_rawPayload ff) chunk
                     (length (ff_rawPayload ff) + length chunk) in
        (setFragmented st (Some (setRawPayload ff raw)), alloc 0)
      else
        let remainingPart := slice chunk 0 remainingByteLen in
        let raw := concat2 (ff_rawPayload ff) remainingPart
                     (length (ff_rawPayload ff) + remainingByteLen) in
        let payload := if ff_mask ff
                       then unmask raw (ff_payloadLen ff) (ff_maskingKey ff)
                       else raw in
        let frame := mkFrame (ff_fin ff) (ff_rsv1 ff) (ff_rsv2 ff) (ff_rsv3 ff)
                       (ff_opcode ff) (ff_mask ff) (ff_payloadLen ff) payload
                       (ff_byteOffset ff + length payload) in
        (setFragmented (pushFrame st frame) None,
         slice_from chunk remainingByteLen)
  end.

(* ------------------------------------------------------------------ *)
(** ** Header parsing of [readFrame] (lines 67-115) *)

(** The header fields [readFrame] has parsed when it reaches the payload. *)
Record Header := mkHeader {
  h_fin : bool; h_rsv1 : Z; h_rsv2 : Z; h_rsv3 : Z; h_opcode : Z; h_mask : bool;
  h_payloadLen : Z; h_maskingKey : buffer; h_byteOffset : nat }.

Definition parseHeader (chunk : buffer) : result Header :=
  let byteOffset := 0 in
  firstByte <- readUInt8 chunk byteOffset ;;
  let fin := negb (Z.land (Z.shiftr firstByte 7) 1 =? 0)%Z in
  let rsv1 := Z.land (Z.shiftr firstByte 6) 1 in
  let rsv2 := Z.land (Z.shiftr firstByte 5) 1 in
  let rsv3 := Z.land (Z.shiftr firstByte 4) 1 in
  if negb (rsv1 =? 0)%Z || negb (rsv2 =? 0)%Z || negb (rsv3 =? 0)%Z
  then Err (WebSocketError PROTOCOL_ERROR) else
  let opcode := Z.land firstByte 15 in
  let byteOffset := S byteOffset in
  secondByte <- readUInt8 chunk byteOffset ;;
  let mask := negb (Z.land (Z.shiftr secondByte 7) 1 =? 0)%Z in
  let payloadLen := Z.land secondByte 127 in
  let byteOffset := S byteOffset in
  '(payloadLen, byteOffset) <-
     (if (payloadLen =? 126)%Z
      then payloadLen <- readUInt16BE chunk byteOffset ;;
           Ok (payloadLen, byteOffset + 2)
      else Ok (payloadLen, byteOffset)) ;;
  '(payloadLen, byteOffset) <-
     (if (payloadLen =? 127)%Z
      then first32bits <- readUInt32BE chunk byteOffset ;;
           second32bits <- readUInt32BE chunk (byteOffset + 4) ;;
           if negb (first32bits =? 0)%Z then Err UnsupportedLengthError
           else Ok (second32bits, byteOffset + 8)
      else Ok (payloadLen, byteOffset)) ;;
  let '(maskingKey, byteOffset) :=
     if mask then (slice chunk byteOffset (byteOffset + 4), byteOffset + 4)
     else (alloc 4, byteOffset) in
  Ok (mkHeader fin rsv1 rsv2 rsv3 opcode mask payloadLen maskingKey byteOffset).

(* ------------------------------------------------------------------ *)
(** ** [readFrame] *)

Definition readFrame (st : WebsocketParser) (chunk : buffer)
  : WebsocketParser * result buffer :=
  let '(st, chunk) := readFragmentedBuffer st chunk in
  if length chunk <=? 0 then (st, Ok chunk) else
  match parseHeader chunk with
  | Err e => (st, Err e)
  | Ok h =>
      let payloadLen := Z.to_nat (h_payloadLen h) in
      let byteOffset := h_byteOffset h in
      let rawPayload := slice chunk byteOffset (byteOffset + payloadLen) in
      let remainingBuff := slice_from chunk (byteOffset + payloadLen) in
      if length rawPayload <? payloadLen then
        (setFragmented st
           (Some (mkFragmented (h_fin h) (h_rsv1 h) (h_rsv2 h) (h_rsv3 h)
                    (h_mask h) (h_opcode h) payloadLen rawPayload
                    (h_maskingKey h) byteOffset)),
         Ok (alloc 0))
      else
        let payload := if h_mask h then unmask rawPayload payloadLen (h_maskingKey h)
                       else rawPayload in
        let frame := mkFrame (h_fin h) (h_rsv1 h) (h_rsv2 h) (h_rsv3 h)
                       (h_opcode h) (h_mask h) payloadLen payload
                       (byteOffset + length payload) in
        (pushFrame st frame, Ok remainingBuff)
  end.

(** The socket [data] handler of the README: one [readFrame] call, then
    [readFrame] again on the remainder while it is not empty.  The
    remainder of a non-empty chunk is strictly shorter, so [length buff]
    rounds suffice. *)
Fixpoint readLoop (fuel : nat) (st : WebsocketParser) (remainingBuff : buffer)
  : WebsocketParser * result buffer :=
  match fuel with
  | O => (st, Ok remainingBuff)
  | S fuel' =>
      if 0 <? length remainingBuff then
        match readFrame st remainingBuff with
        | (st', Ok rest) => readLoop fuel' st' rest
        | (st', Err e) => (st', Err e)
        end
      else (st, Ok remainingBuff)
  end.

Definition onData (st : WebsocketParser) (buff : buffer)
  : WebsocketParser * result buffer :=
  match readFrame st buff with
  | (st', Ok rest) => readLoop (length buff) st' rest
  | (st', Err e) => (st', Err e)
  end.

(* ================================================================== *)
(** * Properties *)

(* ------------------------------------------------------------------ *)
(** ** Buffer lemmas *)

Lemma land_shiftr_1 (x n : Z) :
  (0 <= n)%Z -> Z.land (Z.shiftr x n) 1 = (if Z.testbit x n then 1 else 0)%Z.
Proof.
  intros Hn. change 1%Z with (Z.ones 1) at 1.
  rewrite Z.land_ones by lia. change (2 ^ 1)%Z with 2%Z.
  rewrite Zmod_odd, <- Z.testbit_odd. reflexivity.
Qed.

Lemma concat2_exact (a b : buffer) : concat2 a b (length a + length b) = a ++ b.
Proof.
  unfold concat2. rewrite length_app, Nat.sub_diag, app_nil_r.
  rewrite firstn_all2; [reflexivity | rewrite length_app; lia].
Qed.

Lemma length_set_nth (b : buffer) i v : length (set_nth b i v) = length b.
Proof.
  revert i. induction b as [|x b IH]; intros [|i]; simpl; auto.
Qed.

Lemma set_nth_app (pre rest : buffer) x v :
  set_nth (pre ++ x :: rest) (length pre) v = pre ++ v :: rest.
Proof. induction pre as [|y pre IH]; simpl; [reflexivity | now rewrite IH]. Qed.

Lemma get_map_seq (f : nat -> Z) n i : i < n -> get (map f (seq 0 n)) i = f i.
Proof.
  intros Hi. unfold get.
  rewrite nth_indep with (d' := f 0) by (rewrite length_map, length_seq; lia).
  rewrite map_nth, seq_nth by lia. reflexivity.
Qed.

Lemma map_get_seq (raw : buffer) n :
  map (get raw) (seq 0 n) = firstn n raw ++ repeat 0%Z (n - length raw).
Proof.
  revert n. induction raw as [|x raw IH]; intros n.
  - simpl. rewrite Nat.sub_0_r, firstn_nil. simpl.
    rewrite <- (length_seq n 0) at 2. generalize (seq 0 n) as l.
    induction l as [|i l IHl]; [reflexivity|].
    simpl. rewrite IHl. now destruct i.
  - destruct n as [|n]; [reflexivity|].
    simpl. f_equal. rewrite <- seq_shift, map_map. apply IH.
Qed.

Lemma length_unmask (raw : buffer) n key : length (unmask raw n key) = n.
Proof. unfold unmask. now rewrite length_map, length_seq. Qed.

(** Writing a byte list over a buffer from offset [length pre]. *)
Lemma copyPayload_over (pre xs ps : buffer) :
  Forall byte_ok ps -> length ps <= length xs ->
  copyPayload (pre ++ xs) ps (length pre) = Ok (pre ++ ps ++ skipn (length ps) xs).
Proof.
  revert pre xs. induction ps as [|p ps IH]; intros pre xs Hok Hlen.
  - reflexivity.
  - inversion Hok as [|? ? [Hp0 Hp1] Hok']; subst.
    destruct xs as [|x xs]; simpl in Hlen; [lia|].
    simpl. unfold writeUInt8.
    replace ((0 <=? p)%Z && (p <=? 255)%Z && (length pre <? length (pre ++ x :: xs)))
      with true
      by (symmetry; rewrite !andb_true_iff, Z.leb_le, Z.leb_le, Nat.ltb_lt,
                 length_app; simpl; lia).
    simpl. rewrite set_nth_app.
    replace (pre ++ p :: xs) with ((pre ++ [p]) ++ xs) by (now rewrite <- app_assoc).
    replace (S (length pre)) with (length (pre ++ [p]))
      by (rewrite length_app; simpl; lia).
    rewrite IH by (auto; lia). now rewrite <- app_assoc.
Qed.

Lemma generateFirstByte_byte (o : ICreateFrameOptions) : byte_ok (generateFirstByte o).
Proof.
  unfold byte_ok, generateFirstByte.
  destruct (o_opcode o =? 1)%Z, (o_fin o), (o_opcode o =? 2)%Z; simpl; lia.
Qed.

Lemma writeUInt8_ok (b : buffer) v off :
  byte_ok v -> off < length b -> writeUInt8 b v off = Ok (set_nth b off v).
Proof.
  intros [H0 H1] Hoff. unfold writeUInt8.
  replace ((0 <=? v)%Z && (v <=? 255)%Z && (off <? length b)) with true; [reflexivity|].
  symmetry. rewrite !andb_true_iff, Z.leb_le, Z.leb_le, Nat.ltb_lt. lia.
Qed.

(** Checking a property of every [n < bound] by evaluation. *)
Lemma forallb_seq_below (P : nat -> bool) bound n :
  forallb P (seq 0 bound) = true -> n < bound -> P n = true.
Proof.
  intros H Hn. rewrite forallb_forall in H. apply H, in_seq. lia.
Qed.

Lemma testbit7_small n : n <= 255 -> Z.testbit (Z.of_nat n) 7 = (128 <=? n).
Proof.
  intros Hn. apply Bool.eqb_prop.
  apply (forallb_seq_below (fun n => Bool.eqb (Z.testbit (Z.of_nat n) 7) (128 <=? n)) 256);
    [vm_compute; reflexivity | lia].
Qed.

(* ------------------------------------------------------------------ *)
(** ** The bytes [createFrame] writes *)

(** A payload of at most 255 bytes other than 126: the two header bytes,
    then the payload. *)
Lemma createFrame_short (payload : buffer) o :
  Forall byte_ok payload -> length payload <> 126 -> length payload <= 255 ->
  createFrame payload o
  = Ok (generateFirstByte o :: Z.of_nat (length payload) :: payload).
Proof.
  intros Hok H126 H255. unfold createFrame.
  apply Nat.eqb_neq in H126. rewrite H126. simpl.
  unfold alloc. simpl repeat.
  rewrite writeUInt8_ok; [simpl | apply generateFirstByte_byte | simpl; lia].
  rewrite writeUInt8_ok; [simpl | unfold byte_ok; lia | simpl; lia].
  change (generateFirstByte o :: Z.of_nat (length payload) :: repeat 0%Z (length payload))
    with ([generateFirstByte o; Z.of_nat (length payload)] ++ repeat 0%Z (length payload)).
  change 2 with (length [generateFirstByte o; Z.of_nat (length payload)]).
  rewrite copyPayload_over by (auto; rewrite repeat_length; lia).
  rewrite skipn_all2 by (rewrite repeat_length; lia).
  now rewrite app_nil_r.
Qed.

(** A payload of exactly 126 bytes: the 16-bit length is written at
    offsets 2-3, but the payload copy starts at offset 3. *)
Lemma createFrame_126 (payload : buffer) o :
  Forall byte_ok payload -> length payload = 126 ->
  createFrame payload o
  = Ok (generateFirstByte o :: 126%Z :: 0%Z :: payload ++ [0%Z]).
Proof.
  intros Hok H126. unfold createFrame. rewrite H126. simpl Nat.eqb. cbv iota.
  unfold alloc. simpl repeat.
  rewrite writeUInt8_ok; [simpl | apply generateFirstByte_byte | simpl; lia].
  transitivity (copyPayload ([generateFirstByte o; 126%Z; 0%Z] ++ (126%Z :: repeat 0%Z 126))
                  payload (length [generateFirstByte o; 126%Z; 0%Z]));
    [reflexivity|].
  rewrite copyPayload_over by (auto; simpl; lia).
  rewrite H126. reflexivity.
Qed.

(** More than 255 bytes: the length does not fit the second byte. *)
Lemma createFrame_long (payload : buffer) o :
  255 < length payload -> createFrame payload o = Err RangeError.
Proof.
  intros H. unfold createFrame.
  replace (length payload =? 126) with false by (symmetry; apply Nat.eqb_neq; lia).
  unfold alloc. simpl repeat.
  rewrite writeUInt8_ok; [simpl | apply generateFirstByte_byte | simpl; lia].
  unfold writeUInt8.
  replace ((0 <=? Z.of_nat (length payload))%Z && (Z.of_nat (length payload) <=? 255)%Z)
    with false by (symmetry; rewrite andb_false_iff; right; apply Z.leb_gt; lia).
  reflexivity.
Qed.

(* ------------------------------------------------------------------ *)
(** ** Frames are only ever appended *)

Lemma readFragmentedBuffer_frames (st : WebsocketParser) chunk :
  exists l, parsedFrames (fst (readFragmentedBuffer st chunk)) = parsedFrames st ++ l.
Proof.
  unfold readFragmentedBuffer.
  destruct (fragmentedFrame st) as [ff|]; [|exists []; now rewrite app_nil_r].
  destruct (length chunk <? _); simpl; eauto.
  exists []; now rewrite app_nil_r.
Qed.

Lemma readFrame_frames (st : WebsocketParser) chunk :
  exists l, parsedFrames (fst (readFrame st chunk)) = parsedFrames st ++ l.
Proof.
  unfold readFrame.
  destruct (readFragmentedBuffer_frames st chunk) as [l Hl].
  destruct (readFragmentedBuffer st chunk) as [st1 chunk1]; simpl in Hl.
  destruct (length chunk1 <=? 0); [simpl; eauto|].
  destruct (parseHeader chunk1) as [h|e]; [|simpl; eauto].
  destruct (length _ <? _); simpl; [eauto|].
  rewrite Hl, <- app_assoc. eauto.
Qed.

(* ------------------------------------------------------------------ *)
(** ** The two branches of [readFragmentedBuffer] *)

Lemma readFragmentedBuffer_short (st : WebsocketParser) ff chunk :
  fragmentedFrame st = Some ff ->
  length chunk < ff_payloadLen ff - length (ff_rawPayload ff) ->
  readFragmentedBuffer st chunk
  = (mkParser (parsedFrames st) (Some (setRawPayload ff (ff_rawPayload ff ++ chunk))), []).
Proof.
  intros Hff Hshort. unfold readFragmentedBuffer. rewrite Hff.
  replace (length chunk <? ff_payloadLen ff - length (ff_rawPayload ff)) with true
    by (symmetry; apply Nat.ltb_lt; exact Hshort).
  rewrite concat2_exact. reflexivity.
Qed.

Lemma readFrame_short (st : WebsocketParser) ff chunk :
  fragmentedFrame st = Some ff ->
  length chunk < ff_payloadLen ff - length (ff_rawPayload ff) ->
  readFrame st chunk
  = (mkParser (parsedFrames st) (Some (setRawPayload ff (ff_rawPayload ff ++ chunk))), Ok []).
Proof.
  intros Hff Hshort. unfold readFrame.
  rewrite (readFragmentedBuffer_short st ff chunk Hff Hshort). reflexivity.
Qed.

Lemma readFragmentedBuffer_long (st : WebsocketParser) ff chunk :
  fragmentedFrame st = Some ff ->
  ff_payloadLen ff - length (ff_rawPayload ff) <= length chunk ->
  let rem := ff_payloadLen ff - length (ff_rawPayload ff) in
  let raw := ff_rawPayload ff ++ firstn rem chunk in
  let payload := if ff_mask ff then unmask raw (ff_payloadLen ff) (ff_maskingKey ff)
                 else raw in
  readFragmentedBuffer st chunk
  = (mkParser (parsedFrames st ++
       [mkFrame (ff_fin ff) (ff_rsv1 ff) (ff_rsv2 ff) (ff_rsv3 ff) (ff_opcode ff)
          (ff_mask ff) (ff_payloadLen ff) payload (ff_byteOffset ff + length payload)])
       None,
     skipn rem chunk).
Proof.
  intros Hff Hlong rem raw payload. unfold readFragmentedBuffer. rewrite Hff.
  replace (length chunk <? ff_payloadLen ff - length (ff_rawPayload ff)) with false
    by (symmetry; apply Nat.ltb_ge; exact Hlong).
  fold rem. unfold slice, slice_from. rewrite Nat.sub_0_r. simpl skipn.
  replace (length (ff_rawPayload ff) + rem)
    with (length (ff_rawPayload ff) + length (firstn rem chunk))
    by (rewrite length_firstn; lia).
  rewrite concat2_exact. reflexivity.
Qed.

(* ------------------------------------------------------------------ *)
(** ** Reachable parser states and their invariant *)

(** The states a parser reaches from [new WebsocketParser()] through
    [readFrame] calls (whether they return or throw) and [clearFrames]. *)
Inductive reachable : WebsocketParser -> Prop :=
  | reachable_new : reachable newParser
  | reachable_readFrame st chunk : reachable st -> reachable (fst (readFrame st chunk))
  | reachable_clearFrames st : reachable st -> reachable (clearFrames st).

(** The header sizes [readFrame] can reach: 2 fixed bytes, 0, 2 or 8
    bytes of extended length (10 when a 16-bit length of 127 is then read
    as the 64-bit form as well), and 4 bytes of masking key. *)
Definition headerLen_ok (m : bool) (off : nat) : Prop :=
  exists ext, (ext = 0 \/ ext = 2 \/ ext = 8 \/ ext = 10) /\
              off = 2 + ext + (if m then 4 else 0).

Definition frame_ok (f : IFrame) : Prop :=
  length (payload f) = payloadLen f /\
  exists headerLen, headerLen_ok (mask f) headerLen /\
                    frameLen f = headerLen + length (payload f).

Definition pending_ok (ff : IFragmentedFrame) : Prop :=
  length (ff_rawPayload ff) < ff_payloadLen ff /\
  headerLen_ok (ff_mask ff) (ff_byteOffset ff).

Definition parser_ok (st : WebsocketParser) : Prop :=
  Forall frame_ok (parsedFrames st) /\
  (forall ff, fragmentedFrame st = Some ff -> pending_ok ff).

Ltac split_ok :=
  repeat match goal with
  | H : Err _ = Ok _ |- _ => discriminate H
  | H : Ok _ = Ok _ |- _ => injection H as <-
  | H : bind ?m _ = Ok _ |- _ =>
      let E := fresh "E" in destruct m eqn:E; cbn [bind] in H
  | H : (if ?b then _ else _) = Ok _ |- _ =>
      let E := fresh "Eb" in destruct b eqn:E
  | H : match (if ?b then _ else _) with pair _ _ => _ end = Ok _ |- _ =>
      let E := fresh "Eb" in destruct b eqn:E; cbn beta iota in H
  | H : match ?p with pair _ _ => _ end = Ok _ |- _ => destruct p
  end.

Lemma parseHeader_headerLen (chunk : buffer) h :
  parseHeader chunk = Ok h -> headerLen_ok (h_mask h) (h_byteOffset h).
Proof.
  intros H. unfold parseHeader in H. split_ok.
  all: cbn [h_mask h_byteOffset].
  all: repeat match goal with E : ?b = _ |- context [?b] => rewrite E end.
  all: unfold headerLen_ok.
  all: first [ exists 0; split; [lia | reflexivity]
             | exists 2; split; [lia | reflexivity]
             | exists 8; split; [lia | reflexivity]
             | exists 10; split; [lia | reflexivity] ].
Qed.

Lemma length_slice (b : buffer) s e : length (slice b s e) <= e - s.
Proof. unfold slice. rewrite length_firstn. lia. Qed.

Lemma readFragmentedBuffer_ok (st : WebsocketParser) chunk :
  parser_ok st -> parser_ok (fst (readFragmentedBuffer st chunk)).
Proof.
  intros [Hf Hp]. destruct (fragmentedFrame st) as [ff|] eqn:Hff.
  - destruct (Hp ff eq_refl) as [Hlt Hhl].
    destruct (Nat.lt_ge_cases (length chunk) (ff_payloadLen ff - length (ff_rawPayload ff)))
      as [Hs|Hl].
    + rewrite (readFragmentedBuffer_short st ff chunk Hff Hs).
      split; [exact Hf|]. intros ff' [= <-].
      split; simpl; [rewrite length_app; lia | exact Hhl].
    + rewrite (readFragmentedBuffer_long st ff chunk Hff Hl).
      split; [|discriminate]. simpl.
      apply Forall_app. split; [exact Hf|]. constructor; [|constructor].
      split.
      * simpl. destruct (ff_mask ff); [apply length_unmask|].
        rewrite length_app, length_firstn. lia.
      * exists (ff_byteOffset ff). split; [exact Hhl | reflexivity].
  - unfold readFragmentedBuffer. rewrite Hff. split; [exact Hf|].
    simpl. rewrite Hff. exact Hp.
Qed.

Lemma readFrame_ok (st : WebsocketParser) chunk :
  parser_ok st -> parser_ok (fst (readFrame st chunk)).
Proof.
  intros Hst. unfold readFrame.
  pose proof (readFragmentedBuffer_ok st chunk Hst) as Hst1.
  destruct (readFragmentedBuffer st chunk) as [st1 chunk1]. simpl in Hst1.
  destruct Hst1 as [Hf Hp].
  destruct (length chunk1 <=? 0); [split; assumption|].
  destruct (parseHeader chunk1) as [h|e] eqn:Eh; [|split; assumption].
  pose proof (parseHeader_headerLen chunk1 h Eh) as Hhl.
  match goal with
  | |- context [if ?c then _ else _] => destruct c eqn:Elt
  end.
  - split; [exact Hf|]. intros ff [= <-].
    split; simpl; [apply Nat.ltb_lt; exact Elt | exact Hhl].
  - split; [|exact Hp]. simpl.
    apply Forall_app. split; [exact Hf|]. constructor; [|constructor].
    apply Nat.ltb_ge in Elt. split.
    + simpl. destruct (h_mask h); [apply length_unmask|].
      pose proof (length_slice chunk1 (h_byteOffset h)
                    (h_byteOffset h + Z.to_nat (h_payloadLen h))). lia.
    + exists (h_byteOffset h). split; [exact Hhl | reflexivity].
Qed.

Lemma reachable_inv (st : WebsocketParser) : reachable st -> parser_ok st.
Proof.
  induction 1 as [| st chunk _ IH | st _ IH].
  - split; [constructor | discriminate].
  - apply readFrame_ok. exact IH.
  - split; [constructor | exact (proj2 IH)].
Qed.

(* ------------------------------------------------------------------ *)
(** ** Header parsing only looks at the header bytes *)

Lemma get_firstn (c : buffer) k i : i < k -> get (firstn k c) i = get c i.
Proof.
  intros H. unfold get. rewrite nth_firstn.
  replace (i <? k) with true by (symmetry; apply Nat.ltb_lt; lia). reflexivity.
Qed.

Lemma readUInt8_firstn (c : buffer) k i :
  i < k -> readUInt8 (firstn k c) i = readUInt8 c i.
Proof.
  intros H. unfold readUInt8. rewrite nth_error_firstn.
  replace (i <? k) with true by (symmetry; apply Nat.ltb_lt; lia). reflexivity.
Qed.

Lemma readUInt16BE_firstn (c : buffer) k off :
  off + 2 <= k -> readUInt16BE (firstn k c) off = readUInt16BE c off.
Proof.
  intros H. unfold readUInt16BE. rewrite length_firstn.
  destruct (Nat.le_gt_cases (off + 2) (length c)) as [Hc|Hc].
  - replace (off + 2 <=? Nat.min k (length c)) with true
      by (symmetry; apply Nat.leb_le; lia).
    replace (off + 2 <=? length c) with true by (symmetry; apply Nat.leb_le; lia).
    rewrite !get_firstn by lia. reflexivity.
  - replace (off + 2 <=? Nat.min k (length c)) with false
      by (symmetry; apply Nat.leb_gt; lia).
    replace (off + 2 <=? length c) with false by (symmetry; apply Nat.leb_gt; lia).
    reflexivity.
Qed.

Lemma readUInt32BE_firstn (c : buffer) k off :
  off + 4 <= k -> readUInt32BE (firstn k c) off = readUInt32BE c off.
Proof.
  intros H. unfold readUInt32BE. rewrite length_firstn.
  destruct (Nat.le_gt_cases (off + 4) (length c)) as [Hc|Hc].
  - replace (off + 4 <=? Nat.min k (length c)) with true
      by (symmetry; apply Nat.leb_le; lia).
    replace (off + 4 <=? length c) with true by (symmetry; apply Nat.leb_le; lia).
    rewrite !get_firstn by lia. reflexivity.
  - replace (off + 4 <=? Nat.min k (length c)) with false
      by (symmetry; apply Nat.leb_gt; lia).
    replace (off + 4 <=? length c) with false by (symmetry; apply Nat.leb_gt; lia).
    reflexivity.
Qed.

Lemma slice_firstn (c : buffer) k s e :
  e <= k -> slice (firstn k c) s e = slice c s e.
Proof.
  intros H. unfold slice. rewrite skipn_firstn_comm, firstn_firstn.
  f_equal. lia.
Qed.

Lemma parseHeader_firstn (c : buffer) h k :
  parseHeader c = Ok h -> h_byteOffset h <= k -> parseHeader (firstn k c) = Ok h.
Proof.
  intros H Hk. unfold parseHeader in H. split_ok.
  all: cbn [h_byteOffset Nat.add] in *; unfold parseHeader.
  all: repeat first
         [ rewrite readUInt8_firstn by lia
         | rewrite readUInt16BE_firstn by lia
         | rewrite readUInt32BE_firstn by lia
         | rewrite slice_firstn by lia
         | match goal with E : ?x = _ |- context [?x] => rewrite E end
         | progress cbn [bind Nat.add] ].
  all: reflexivity.
Qed.

(* ================================================================== *)
(** * Claims *)

(** ** C1: round trip [createFrame] / [readFrame] on the lengths 0, 1, 125
    and 126.  At length 126 the encoder writes the 16-bit length at
    offsets 2-3 but advances [byteOffset] by one only, so the payload
    overwrites the low length byte and the frame's last byte stays 0.
    Decoding the 126 zero bytes text frame gives a first frame with an
    empty payload (frameLen 4), and the caller's loop decodes the rest of
    the bytes into 64 frames in all, instead of one frame of 126 bytes. *)
Theorem createFrame_126_roundtrip_fails :
  exists bytes,
    createFrame (repeat 0%Z 126) (mkOptions 1 true) = Ok bytes /\
    fst (readFrame newParser bytes) = mkParser [mkFrame true 0 0 0 1 false 0 [] 4] None /\
    length (parsedFrames (fst (onData newParser bytes))) = 64.
Proof.
  eexists. split; [vm_compute; reflexivity|].
  split; vm_compute; reflexivity.
Qed.

(** ** C3 (corrected): [unmask] always returns [payloadLen] bytes, and
    applying it twice with the same length and key gives the first
    [payloadLen] bytes of the input, zero-padded to [payloadLen] when the
    input is shorter.  So it is an involution whenever
    [payloadLen <= rawPayload.length]. *)
Theorem unmask_twice (rawPayload : buffer) (payloadLen : nat) (maskingKey : buffer) :
  length (unmask rawPayload payloadLen maskingKey) = payloadLen /\
  unmask (unmask rawPayload payloadLen maskingKey) payloadLen maskingKey
  = firstn payloadLen rawPayload ++ repeat 0%Z (payloadLen - length rawPayload).
Proof.
  split; [apply length_unmask|].
  unfold unmask at 1. rewrite <- map_get_seq.
  apply map_ext_in. intros i Hi. apply in_seq in Hi.
  unfold unmask. rewrite get_map_seq by lia.
  rewrite Z.lxor_assoc, Z.lxor_nilpotent, Z.lxor_0_r. reflexivity.
Qed.

(** C3 counterexample: with an empty input and length 1 the double
    [unmask] is [[0]], not the input's first byte (there is none). *)
Lemma unmask_twice_counterexample :
  unmask (unmask [] 1 [0; 0; 0; 0]%Z) 1 [0; 0; 0; 0]%Z <> firstn 1 [].
Proof. vm_compute. discriminate. Qed.

(** ** C4: on a parser with no pending partial frame, a chunk whose first
    byte has RSV1, RSV2 or RSV3 set makes [readFrame] throw
    [WebSocketError(PROTOCOL_ERROR)] and leaves the parser as it was: no
    frame is queued and no partial frame is stored. *)
Theorem readFrame_rsv_rejected (st : WebsocketParser) (firstByte : Z) (rest : buffer) :
  fragmentedFrame st = None ->
  Z.testbit firstByte 6 || Z.testbit firstByte 5 || Z.testbit firstByte 4 = true ->
  readFrame st (firstByte :: rest) = (st, Err (WebSocketError PROTOCOL_ERROR)).
Proof.
  intros Hnone Hrsv. unfold readFrame, readFragmentedBuffer. rewrite Hnone.
  simpl. unfold parseHeader. simpl.
  rewrite !land_shiftr_1 by lia.
  destruct (Z.testbit firstByte 6), (Z.testbit firstByte 5), (Z.testbit firstByte 4);
    simpl in Hrsv; try discriminate; reflexivity.
Qed.

Lemma readFrame_rsv_rejected_witness :
  fragmentedFrame newParser = None /\
  (Z.testbit 193 6 || Z.testbit 193 5 || Z.testbit 193 4 = true) /\
  readFrame newParser [193; 0]%Z = (newParser, Err (WebSocketError PROTOCOL_ERROR)).
Proof.
  split; [reflexivity|]. split; [reflexivity|].
  apply readFrame_rsv_rejected; reflexivity.
Defined.

(** ** C6 (corrected): the second byte [createFrame] writes is the payload
    length itself when it is not 126 (and 126 when it is), so its bit 7
    (the mask bit) is 0 exactly for payloads shorter than 128 bytes and 1
    for 128 to 255 bytes; a payload longer than 255 bytes makes
    [createFrame] throw a RangeError instead of producing a frame. *)
Theorem createFrame_mask_bit (payload : buffer) (options : ICreateFrameOptions) :
  Forall byte_ok payload ->
  (length payload <= 255 ->
   exists bytes, createFrame payload options = Ok bytes /\
     Z.testbit (get bytes 1) 7 = (128 <=? length payload)) /\
  (255 < length payload -> createFrame payload options = Err RangeError).
Proof.
  intros Hok. split; [|apply createFrame_long].
  intros Hlen.
  destruct (Nat.eq_dec (length payload) 126) as [H126|H126].
  - rewrite createFrame_126 by assumption. eexists. split; [reflexivity|].
    rewrite H126. reflexivity.
  - rewrite createFrame_short by assumption. eexists. split; [reflexivity|].
    apply testbit7_small. assumption.
Qed.
Lemma createFrame_mask_bit_witness :
  Forall byte_ok [7%Z] /\
  ((length [7%Z] <= 255 ->
    exists bytes, createFrame [7%Z] (mkOptions 1 true) = Ok bytes /\
      Z.testbit (get bytes 1) 7 = (128 <=? length [7%Z])) /\
   (255 < length [7%Z] -> createFrame [7%Z] (mkOptions 1 true) = Err RangeError)).
Proof.
  assert (H : Forall byte_ok [7%Z]) by (repeat constructor; unfold byte_ok; lia).
  split; [exact H|].
  exact (createFrame_mask_bit [7%Z] (mkOptions 1 true) H).
Defined.

(** C6 counterexample: a 128 byte payload gets the second byte 128, whose
    bit 7 is set. *)
Lemma createFrame_mask_bit_counterexample :
  ~ (forall (payload : buffer) options bytes,
       createFrame payload options = Ok bytes -> Z.testbit (get bytes 1) 7 = false).
Proof.
  intros H.
  specialize (H (repeat 0%Z 128) (mkOptions 1 true)).
  destruct (createFrame (repeat 0%Z 128) (mkOptions 1 true)) as [bytes|e] eqn:E;
    [|vm_compute in E; discriminate].
  specialize (H bytes eq_refl).
  vm_compute in E. injection E as <-. vm_compute in H. discriminate.
Qed.

(** ** C7 (corrected): for a payload of at most 255 bytes [createFrame]
    returns [2 + (2 if length = 126 else 0) + length] bytes, and for a
    length other than 126 they are the first byte, the length, then the
    payload bytes verbatim.  A payload longer than 255 bytes makes it
    throw a RangeError, as [writeUInt8] cannot store the length. *)
Theorem createFrame_layout (payload : buffer) (options : ICreateFrameOptions) :
  Forall byte_ok payload ->
  (length payload <= 255 ->
   exists bytes, createFrame payload options = Ok bytes /\
     length bytes = 2 + (if length payload =? 126 then 2 else 0) + length payload /\
     (length payload <> 126 ->
      bytes = generateFirstByte options :: Z.of_nat (length payload) :: payload)) /\
  (255 < length payload -> createFrame payload options = Err RangeError).
Proof.
  intros Hok. split; [|apply createFrame_long].
  intros Hlen. destruct (Nat.eq_dec (length payload) 126) as [H126|H126].
  - rewrite createFrame_126 by assumption. eexists. split; [reflexivity|].
    split; [|contradiction].
    simpl. rewrite length_app, H126. reflexivity.
  - rewrite createFrame_short by assumption. eexists. split; [reflexivity|].
    split; [|reflexivity].
    apply Nat.eqb_neq in H126. rewrite H126. reflexivity.
Qed.

Lemma createFrame_layout_witness :
  Forall byte_ok [7%Z; 8%Z] /\
  exists bytes, createFrame [7%Z; 8%Z] (mkOptions 2 false) = Ok bytes /\
    length bytes = 4 /\ bytes = [2%Z; 2%Z; 7%Z; 8%Z].
Proof.
  assert (Hok : Forall byte_ok [7%Z; 8%Z])
    by (repeat constructor; unfold byte_ok; lia).
  split; [exact Hok|].
  destruct (proj1 (createFrame_layout [7%Z; 8%Z] (mkOptions 2 false) Hok))
    as [bytes [E [L B]]]; [simpl; lia|].
  exists bytes. split; [exact E|]. split; [exact L|]. apply B. discriminate.
Defined.

(** C7 counterexample: a 256 byte payload yields no byte sequence. *)
Lemma createFrame_layout_counterexample :
  ~ exists bytes, createFrame (repeat 0%Z 256) (mkOptions 1 true) = Ok bytes.
Proof. intros [bytes E]. vm_compute in E. discriminate. Qed.

(** ** C8: with a pending partial frame, [remainingByteLen] being its
    [payloadLen] minus the bytes buffered so far (positive in every
    reachable state, see [reachable_inv]): a chunk shorter than it is
    appended to the buffered bytes, no frame is queued and the remainder
    is empty (so [readFrame] also returns at once); a chunk at least as
    long gives up exactly [remainingByteLen] bytes, the frame is completed
    (unmasked when [mask] is set) and queued, the pending frame is
    cleared, and the rest of the chunk is returned. *)
Theorem readFragmentedBuffer_pending (st : WebsocketParser) (ff : IFragmentedFrame)
    (chunk : buffer) :
  fragmentedFrame st = Some ff ->
  length (ff_rawPayload ff) < ff_payloadLen ff ->
  let remainingByteLen := ff_payloadLen ff - length (ff_rawPayload ff) in
  (length chunk < remainingByteLen ->
   readFragmentedBuffer st chunk
   = (mkParser (parsedFrames st) (Some (setRawPayload ff (ff_rawPayload ff ++ chunk))), [])
   /\ readFrame st chunk
   = (mkParser (parsedFrames st) (Some (setRawPayload ff (ff_rawPayload ff ++ chunk))), Ok []))
  /\
  (remainingByteLen <= length chunk ->
   let raw := ff_rawPayload ff ++ firstn remainingByteLen chunk in
   let payload := if ff_mask ff then unmask raw (ff_payloadLen ff) (ff_maskingKey ff)
                  else raw in
   readFragmentedBuffer st chunk
   = (mkParser (parsedFrames st ++
        [mkFrame (ff_fin ff) (ff_rsv1 ff) (ff_rsv2 ff) (ff_rsv3 ff) (ff_opcode ff)
           (ff_mask ff) (ff_payloadLen ff) payload (ff_byteOffset ff + length payload)])
        None,
      skipn remainingByteLen chunk)).
Proof.
  intros Hff Hlt rem. split.
  - intros Hshort. split.
    + apply readFragmentedBuffer_short; assumption.
    + apply readFrame_short; assumption.
  - intros Hlong. apply readFragmentedBuffer_long; assumption.
Qed.

Definition pendingSample : IFragmentedFrame :=
  mkFragmented true 0 0 0 true 1 3 [10%Z] [1%Z; 2%Z; 3%Z; 4%Z] 6.

Lemma readFragmentedBuffer_pending_witness :
  fragmentedFrame (mkParser [] (Some pendingSample)) = Some pendingSample /\
  length (ff_rawPayload pendingSample) < ff_payloadLen pendingSample /\
  readFragmentedBuffer (mkParser [] (Some pendingSample)) [20%Z; 30%Z; 40%Z]%Z
  = (mkParser [mkFrame true 0 0 0 1 true 3
                 (unmask [10%Z; 20%Z; 30%Z] 3 [1%Z; 2%Z; 3%Z; 4%Z]) 9] None, [40%Z]).
Proof.
  split; [reflexivity|]. split; [simpl; lia|].
  exact (proj2 (readFragmentedBuffer_pending (mkParser [] (Some pendingSample))
                  pendingSample [20%Z; 30%Z; 40%Z] eq_refl
                  (ltac:(simpl; lia) : 1 < 3)) (ltac:(simpl; lia) : 2 <= 3)).
Defined.

(** ** C10: [clearFrames] empties the queue and keeps the pending partial
    frame; when its missing bytes arrive in later [readFrame] calls (here
    a call bringing fewer bytes than missing, possibly none, then one
    bringing the rest), the completed frame is the first frame of the
    queue. *)
Theorem clearFrames_keeps_pending (st : WebsocketParser) (ff : IFragmentedFrame)
    (pre chunk : buffer) :
  fragmentedFrame st = Some ff ->
  length (ff_rawPayload ff) < ff_payloadLen ff ->
  length (ff_rawPayload ff) + length pre < ff_payloadLen ff ->
  ff_payloadLen ff <= length (ff_rawPayload ff) + length pre + length chunk ->
  parsedFrames (clearFrames st) = [] /\
  fragmentedFrame (clearFrames st) = Some ff /\
  let raw := ff_rawPayload ff ++ pre ++
             firstn (ff_payloadLen ff - length (ff_rawPayload ff) - length pre) chunk in
  let payload := if ff_mask ff then unmask raw (ff_payloadLen ff) (ff_maskingKey ff)
                 else raw in
  exists later,
    parsedFrames (fst (readFrame (fst (readFrame (clearFrames st) pre)) chunk))
    = mkFrame (ff_fin ff) (ff_rsv1 ff) (ff_rsv2 ff) (ff_rsv3 ff) (ff_opcode ff)
        (ff_mask ff) (ff_payloadLen ff) payload (ff_byteOffset ff + length payload)
      :: later.
Proof.
  intros Hff Hlt Hpre Hchunk. split; [reflexivity|]. split; [simpl; exact Hff|].
  intros raw payload.
  rewrite (readFrame_short (clearFrames st) ff pre) by (simpl; auto; lia).
  simpl fst.
  set (ff1 := setRawPayload ff (ff_rawPayload ff ++ pre)).
  unfold readFrame at 1.
  rewrite (readFragmentedBuffer_long (mkParser [] (Some ff1)) ff1 chunk)
    by (simpl; auto; rewrite length_app; lia).
  replace (ff_payloadLen ff1 - length (ff_rawPayload ff1))
    with (ff_payloadLen ff - length (ff_rawPayload ff) - length pre)
    by (simpl; rewrite length_app; lia).
  simpl ff_rawPayload. rewrite <- app_assoc. fold raw.
  match goal with
  | |- context [if ?c then _ else _] => destruct c
  end.
  - simpl. eauto.
  - match goal with
    | |- context [parseHeader ?b] => destruct (parseHeader b) as [h|e]
    end; simpl; [destruct (_ <? _)|]; simpl; eauto.
Qed.

Definition sampleFrame : IFrame := mkFrame true 0 0 0 1 false 1 [5%Z] 3.

Lemma clearFrames_keeps_pending_witness :
  fragmentedFrame (mkParser [sampleFrame] (Some pendingSample)) = Some pendingSample /\
  length (ff_rawPayload pendingSample) < ff_payloadLen pendingSample /\
  length (ff_rawPayload pendingSample) + length [20%Z] < ff_payloadLen pendingSample /\
  ff_payloadLen pendingSample
    <= length (ff_rawPayload pendingSample) + length [20%Z] + length [30%Z; 40%Z] /\
  parsedFrames (fst (readFrame (fst (readFrame
      (clearFrames (mkParser [sampleFrame] (Some pendingSample))) [20%Z])) [30%Z; 40%Z]))
  = [mkFrame true 0 0 0 1 true 3 (unmask [10%Z; 20%Z; 30%Z] 3 [1%Z; 2%Z; 3%Z; 4%Z]) 9].
Proof.
  assert (H1 : length (ff_rawPayload pendingSample) < ff_payloadLen pendingSample)
    by (simpl; lia).
  assert (H2 : length (ff_rawPayload pendingSample) + length [20%Z]
               < ff_payloadLen pendingSample) by (simpl; lia).
  assert (H3 : ff_payloadLen pendingSample
    <= length (ff_rawPayload pendingSample) + length [20%Z] + length [30%Z; 40%Z])
    by (simpl; lia).
  split; [reflexivity|]. split; [exact H1|]. split; [exact H2|]. split; [exact H3|].
  destruct (clearFrames_keeps_pending (mkParser [sampleFrame] (Some pendingSample))
              pendingSample [20%Z] [30%Z; 40%Z] eq_refl H1 H2 H3)
    as [_ [_ [later E]]].
  rewrite E. simpl. f_equal.
  vm_compute in E. injection E as <-. reflexivity.
Defined.

(* ------------------------------------------------------------------ *)
(** ** Header parsing with the 64-bit length form *)

Lemma parseHeader_len127 (b0 b1 : Z) (rest : buffer) (first second : Z) :
  Z.testbit b0 6 || Z.testbit b0 5 || Z.testbit b0 4 = false ->
  Z.land b1 127 = 127%Z ->
  readUInt32BE (b0 :: b1 :: rest) 2 = Ok first ->
  readUInt32BE (b0 :: b1 :: rest) 6 = Ok second ->
  parseHeader (b0 :: b1 :: rest)
  = if negb (first =? 0)%Z then Err UnsupportedLengthError
    else Ok (mkHeader (Z.testbit b0 7) 0 0 0 (Z.land b0 15) (Z.testbit b1 7) second
               (if Z.testbit b1 7 then slice (b0 :: b1 :: rest) 10 14 else alloc 4)
               (if Z.testbit b1 7 then 14 else 10)).
Proof.
  intros Hrsv H127 Hfirst Hsecond.
  unfold parseHeader. cbn [readUInt8 nth_error bind].
  rewrite !land_shiftr_1 by lia.
  destruct (Z.testbit b0 6), (Z.testbit b0 5), (Z.testbit b0 4); try discriminate Hrsv.
  cbn [negb Z.eqb orb]. rewrite H127. cbn [Z.eqb Pos.eqb bind].
  change (2 + 4) with 6.
  rewrite Hfirst, Hsecond. cbn [bind].
  destruct (negb (first =? 0)%Z); [reflexivity|]. cbn [bind].
  destruct (Z.testbit b0 7), (Z.testbit b1 7); reflexivity.
Qed.

(** ** C5 (corrected): on a parser with no pending partial frame, for a
    chunk whose first byte has RSV1-3 clear (otherwise the ProtocolError
    of C4 comes first), whose 7-bit length is 127 and which holds the 8
    bytes of the extended length: a nonzero first 32-bit half makes
    [readFrame] throw [UnsupportedLengthError] and leaves the parser as it
    was; a zero first half raises nothing, the frame (or pending partial
    frame) gets the second half as [payloadLen], and its header ends 8
    bytes after the 2 fixed ones (plus 4 for a masking key). *)
Theorem readFrame_len127 (st : WebsocketParser) (chunk : buffer) (b0 b1 : Z)
    (rest : buffer) (first second : Z) :
  fragmentedFrame st = None ->
  chunk = b0 :: b1 :: rest ->
  Z.testbit b0 6 || Z.testbit b0 5 || Z.testbit b0 4 = false ->
  Z.land b1 127 = 127%Z ->
  readUInt32BE chunk 2 = Ok first ->
  readUInt32BE chunk 6 = Ok second ->
  (first <> 0%Z -> readFrame st chunk = (st, Err UnsupportedLengthError)) /\
  (first = 0%Z ->
   let headerLen := 2 + 8 + (if Z.testbit b1 7 then 4 else 0) in
   exists st' remainingBuff,
     readFrame st chunk = (st', Ok remainingBuff) /\
     ((parsedFrames st' = parsedFrames st /\
       exists ff, fragmentedFrame st' = Some ff /\
         ff_payloadLen ff = Z.to_nat second /\ ff_byteOffset ff = headerLen) \/
      (fragmentedFrame st' = None /\
       exists f, parsedFrames st' = parsedFrames st ++ [f] /\
         payloadLen f = Z.to_nat second /\ frameLen f = headerLen + payloadLen f))).
Proof.
  intros Hnone -> Hrsv H127 Hfirst Hsecond.
  pose proof (parseHeader_len127 b0 b1 rest first second Hrsv H127 Hfirst Hsecond) as Hh.
  unfold readFrame, readFragmentedBuffer. rewrite Hnone. cbn [length Nat.leb].
  rewrite Hh. split.
  - intros Hne. apply Z.eqb_neq in Hne. rewrite Hne. reflexivity.
  - intros ->. cbn [Z.eqb negb].
    match goal with
    | |- context [if ?c then _ else _] => destruct c eqn:Hlt
    end.
    + do 2 eexists. split; [reflexivity|]. left. split; [reflexivity|].
      eexists. split; [reflexivity|]. split; [reflexivity|].
      cbn [ff_byteOffset]. now destruct (Z.testbit b1 7).
    + do 2 eexists. split; [reflexivity|]. right. split; [simpl; exact Hnone|].
      eexists. split; [reflexivity|]. split; [reflexivity|].
      cbn [frameLen payloadLen h_byteOffset h_mask h_payloadLen h_maskingKey] in *.
      apply Nat.ltb_ge in Hlt.
      destruct (Z.testbit b1 7).
      * rewrite length_unmask. reflexivity.
      * unfold slice in *. rewrite length_firstn in *. lia.
Qed.

Lemma readFrame_len127_witness :
  let chunk := [129; 127; 0; 0; 0; 1; 0; 0; 0; 0]%Z in
  fragmentedFrame newParser = None /\
  (Z.testbit 129 6 || Z.testbit 129 5 || Z.testbit 129 4 = false) /\
  Z.land 127 127 = 127%Z /\
  readUInt32BE chunk 2 = Ok 1%Z /\ readUInt32BE chunk 6 = Ok 0%Z /\
  readFrame newParser chunk = (newParser, Err UnsupportedLengthError).
Proof.
  intros chunk.
  do 5 (split; [reflexivity|]).
  apply (readFrame_len127 newParser chunk 129 127 [0; 0; 0; 1; 0; 0; 0; 0]%Z 1 0);
    try reflexivity. discriminate.
Defined.

(** C5 counterexample: with RSV1 set the same header raises the
    ProtocolError, not [UnsupportedLengthError]. *)
Lemma readFrame_len127_counterexample :
  snd (readFrame newParser [193; 127; 0; 0; 0; 1; 0; 0; 0; 0]%Z)
  = Err (WebSocketError PROTOCOL_ERROR) /\
  snd (readFrame newParser [193; 127; 0; 0; 0; 1; 0; 0; 0; 0]%Z)
  <> Err UnsupportedLengthError.
Proof. split; vm_compute; [reflexivity | discriminate]. Qed.

(** ** C9: in every parser state reached from [new WebsocketParser()]
    through [readFrame] and [clearFrames], every queued frame, whether
    [readFrame] built it or [readFragmentedBuffer] completed it, has a
    payload of exactly [payloadLen] bytes and a [frameLen] equal to its
    header size (the byte offset of its payload) plus the payload length. *)
Theorem reachable_frames_ok (st : WebsocketParser) :
  reachable st -> Forall frame_ok (parsedFrames st).
Proof. intros H. exact (proj1 (reachable_inv st H)). Qed.

Lemma reachable_frames_ok_witness :
  let st := fst (readFrame (fst (readFrame newParser [129; 130; 1; 2; 3; 4; 5]%Z))
                           [6; 129; 0]%Z) in
  reachable st /\ Forall frame_ok (parsedFrames st) /\ length (parsedFrames st) = 2.
Proof.
  intros st.
  assert (R : reachable st)
    by (repeat apply reachable_readFrame; apply reachable_new).
  split; [exact R|]. split; [exact (reachable_frames_ok st R)|].
  vm_compute. reflexivity.
Defined.

(** A split at or after the end of the header of a frame decoded whole
    by a fresh parser. *)
Lemma readFrame_split_past_header (bytes : buffer) (f : IFrame) (k : nat) :
  readFrame newParser bytes = (mkParser [f] None, Ok []) ->
  frameLen f - payloadLen f <= k <= length bytes ->
  snd (readFrame newParser (firstn k bytes)) = Ok [] /\
  readFrame (fst (readFrame newParser (firstn k bytes))) (skipn k bytes)
  = (mkParser [f] None, Ok []).
Proof.
  intros Hwhole [Hk1 Hk2].
  pose proof Hwhole as Hw0.
  unfold readFrame in Hwhole. cbn [readFragmentedBuffer newParser fragmentedFrame] in Hwhole.
  destruct (length bytes <=? 0) eqn:E0; [discriminate Hwhole|].
  destruct (parseHeader bytes) as [h|e] eqn:Eh; [|discriminate Hwhole].
  set (pl := Z.to_nat (h_payloadLen h)) in *.
  set (off := h_byteOffset h) in *.
  destruct (length (slice bytes off (off + pl)) <? pl) eqn:Elt; [discriminate Hwhole|].
  set (raw := slice bytes off (off + pl)) in *.
  pose proof (parseHeader_headerLen bytes h Eh) as Hhl.
  assert (Hoff : 2 <= off)
    by (destruct Hhl as [ext [_ Hx]]; unfold off; rewrite Hx; lia).
  assert (Hraw : length raw = pl)
    by (apply Nat.ltb_ge in Elt; pose proof (length_slice bytes off (off + pl)) as Hs;
        fold raw in Hs; lia).
  assert (Hpay : length (if h_mask h then unmask raw pl (h_maskingKey h) else raw) = pl)
    by (destruct (h_mask h); [apply length_unmask | exact Hraw]).
  unfold pushFrame in Hwhole. cbn [parsedFrames newParser app] in Hwhole.
  injection Hwhole as Hf Hrem. subst f.
  cbn [frameLen payloadLen] in Hk1.
  assert (Hk1' : off <= k).
  { revert Hk1. destruct (h_mask h); [rewrite length_unmask | rewrite Hraw]; lia. }
  assert (Hlen : length bytes <= off + pl).
  { apply (f_equal (@length Z)) in Hrem. unfold slice_from in Hrem.
    rewrite length_skipn in Hrem. simpl in Hrem. lia. }
  destruct (Nat.eq_dec k (length bytes)) as [->|Hk].
  - rewrite firstn_all, skipn_all, Hw0. split; reflexivity.
  - assert (Hlen' : length bytes = off + pl).
    { unfold raw, slice in Hraw. rewrite length_firstn, length_skipn in Hraw. lia. }
    set (raw1 := slice (firstn k bytes) off (off + pl)).
    assert (Hraw1 : raw1 = firstn (k - off) (skipn off bytes)).
    { unfold raw1, slice. rewrite skipn_firstn_comm, firstn_firstn. f_equal. lia. }
    assert (Hraw1len : length raw1 = k - off)
      by (rewrite Hraw1, length_firstn, length_skipn; lia).
    set (ff1 := mkFragmented (h_fin h) (h_rsv1 h) (h_rsv2 h) (h_rsv3 h) (h_mask h)
                  (h_opcode h) pl raw1 (h_maskingKey h) off).
    assert (E1 : readFrame newParser (firstn k bytes) = (mkParser [] (Some ff1), Ok [])).
    { unfold readFrame. cbn [readFragmentedBuffer newParser fragmentedFrame].
      rewrite length_firstn.
      replace (Nat.min k (length bytes) <=? 0) with false
        by (symmetry; apply Nat.leb_gt; lia).
      rewrite (parseHeader_firstn bytes h k Eh) by (fold off; lia).
      fold pl off raw1.
      replace (length raw1 <? pl) with true by (symmetry; apply Nat.ltb_lt; lia).
      reflexivity. }
    rewrite E1. split; [reflexivity|]. cbn [fst].
    unfold readFrame.
    rewrite (readFragmentedBuffer_long (mkParser [] (Some ff1)) ff1 (skipn k bytes))
      by (reflexivity || (cbn [ff_payloadLen ff_rawPayload ff1];
                          rewrite length_skipn; lia)).
    cbn zeta. cbn [ff_payloadLen ff_rawPayload ff_mask ff_maskingKey ff_byteOffset
                   ff_fin ff_rsv1 ff_rsv2 ff_rsv3 ff_opcode ff1].
    rewrite Hraw1len.
    assert (Hcat : raw1 ++ firstn (pl - (k - off)) (skipn k bytes) = raw).
    { rewrite Hraw1, (firstn_all2 (n := pl - (k - off)) (skipn k bytes))
        by (rewrite length_skipn; lia).
      replace k with ((k - off) + off) at 2 by lia.
      rewrite <- skipn_skipn, firstn_skipn.
      unfold raw, slice. rewrite firstn_all2 by (rewrite length_skipn; lia).
      f_equal. }
    rewrite Hcat.
    rewrite (skipn_all2 (skipn k bytes)) by (rewrite length_skipn; lia).
    reflexivity.
Qed.

(** ** C2 (corrected): take a byte sequence that a fresh parser decodes, in
    one [readFrame] call, into exactly one frame [f] with nothing left
    over and no pending partial frame. Split it at position 0, or at any
    position from the end of its header ([frameLen f - payloadLen f]) up
    to its length, and feed the two chunks to a fresh parser one after the
    other. The first call returns an empty remainder, and after the second
    the parser holds the same single frame [f] and no pending partial
    frame.  A split strictly inside the header is not covered: [readFrame]
    parses a header only from one chunk (see
    [readFrame_split_counterexample]). *)
Theorem readFrame_split (bytes : buffer) (f : IFrame) (k : nat) :
  readFrame newParser bytes = (mkParser [f] None, Ok []) ->
  k = 0 \/ frameLen f - payloadLen f <= k <= length bytes ->
  snd (readFrame newParser (firstn k bytes)) = Ok [] /\
  readFrame (fst (readFrame newParser (firstn k bytes))) (skipn k bytes)
  = (mkParser [f] None, Ok []).
Proof.
  intros Hwhole [->|Hk].
  - simpl. split; [reflexivity | exact Hwhole].
  - exact (readFrame_split_past_header bytes f k Hwhole Hk).
Qed.

Lemma readFrame_split_witness :
  readFrame newParser [129; 2; 5; 6]%Z =
    (mkParser [mkFrame true 0 0 0 1 false 2 [5; 6]%Z 4] None, Ok []) /\
  (3 = 0 \/ 4 - 2 <= 3 <= length [129; 2; 5; 6]%Z) /\
  snd (readFrame newParser (firstn 3 [129; 2; 5; 6]%Z)) = Ok [] /\
  readFrame (fst (readFrame newParser (firstn 3 [129; 2; 5; 6]%Z)))
            (skipn 3 [129; 2; 5; 6]%Z)
  = (mkParser [mkFrame true 0 0 0 1 false 2 [5; 6]%Z 4] None, Ok []).
Proof.
  assert (H1 : readFrame newParser [129; 2; 5; 6]%Z =
    (mkParser [mkFrame true 0 0 0 1 false 2 [5; 6]%Z 4] None, Ok []))
    by (vm_compute; reflexivity).
  assert (H2 : 3 = 0 \/ 4 - 2 <= 3 <= length [129; 2; 5; 6]%Z)
    by (right; simpl; lia).
  split; [exact H1|]. split; [exact H2|].
  exact (readFrame_split [129; 2; 5; 6]%Z
           (mkFrame true 0 0 0 1 false 2 [5; 6]%Z 4) 3 H1 H2).
Defined.

(** C2 counterexample: the two-byte frame [129; 0] decodes in one call to a
    single empty text frame, but split after its first byte the first call
    already raises a [RangeError] (the second header byte is missing). *)
Lemma readFrame_split_counterexample :
  readFrame newParser [129; 0]%Z =
    (mkParser [mkFrame true 0 0 0 1 false 0 [] 2] None, Ok []) /\
  snd (readFrame newParser (firstn 1 [129; 0]%Z)) = Err RangeError.
Proof. split; vm_compute; reflexivity. Qed.

(* ================================================================== *)
(** * Further properties of the parser, the encoder and the data handler *)

(* ------------------------------------------------------------------ *)
(** ** Decoding a header from its bytes *)

Lemma forallb_Zrange (P : Z -> bool) (N : nat) (z : Z) :
  forallb P (map Z.of_nat (seq 0 N)) = true -> (0 <= z < Z.of_nat N)%Z -> P z = true.
Proof.
  intros H Hz. rewrite forallb_forall in H. apply H.
  apply in_map_iff. exists (Z.to_nat z). split; [lia|]. apply in_seq. lia.
Qed.

Lemma first_byte_bits (fin : bool) (op : Z) :
  (0 <= op < 16)%Z ->
  let b0 := ((if fin then 128 else 0) + op)%Z in
  Z.land (Z.shiftr b0 7) 1 = (if fin then 1 else 0)%Z /\
  Z.land (Z.shiftr b0 6) 1 = 0%Z /\ Z.land (Z.shiftr b0 5) 1 = 0%Z /\
  Z.land (Z.shiftr b0 4) 1 = 0%Z /\ Z.land b0 15 = op.
Proof.
  intros Hop b0. unfold b0.
  assert (Hb : forall P : Z -> bool, forallb P (map Z.of_nat (seq 0 16)) = true -> P op = true)
    by (intros P HP; apply (forallb_Zrange P 16 op HP); lia).
  destruct fin.
  - specialize (Hb (fun op => (Z.land (Z.shiftr (128 + op) 7) 1 =? 1)
                   && (Z.land (Z.shiftr (128 + op) 6) 1 =? 0)
                   && (Z.land (Z.shiftr (128 + op) 5) 1 =? 0)
                   && (Z.land (Z.shiftr (128 + op) 4) 1 =? 0)
                   && (Z.land (128 + op) 15 =? op))%Z (eq_refl _)).
    rewrite !andb_true_iff, !Z.eqb_eq in Hb. tauto.
  - specialize (Hb (fun op => (Z.land (Z.shiftr (0 + op) 7) 1 =? 0)
                   && (Z.land (Z.shiftr (0 + op) 6) 1 =? 0)
                   && (Z.land (Z.shiftr (0 + op) 5) 1 =? 0)
                   && (Z.land (Z.shiftr (0 + op) 4) 1 =? 0)
                   && (Z.land (0 + op) 15 =? op))%Z (eq_refl _)).
    rewrite !andb_true_iff, !Z.eqb_eq in Hb. tauto.
Qed.

Lemma second_byte_bits (m : bool) (L : Z) :
  (0 <= L < 128)%Z ->
  let b1 := ((if m then 128 else 0) + L)%Z in
  Z.land (Z.shiftr b1 7) 1 = (if m then 1 else 0)%Z /\ Z.land b1 127 = L.
Proof.
  intros HL b1. unfold b1.
  assert (Hb : forall P : Z -> bool, forallb P (map Z.of_nat (seq 0 128)) = true -> P L = true)
    by (intros P HP; apply (forallb_Zrange P 128 L HP); lia).
  destruct m.
  - specialize (Hb (fun L => (Z.land (Z.shiftr (128 + L) 7) 1 =? 1)
                   && (Z.land (128 + L) 127 =? L))%Z (eq_refl _)).
    rewrite !andb_true_iff, !Z.eqb_eq in Hb. tauto.
  - specialize (Hb (fun L => (Z.land (Z.shiftr (0 + L) 7) 1 =? 0)
                   && (Z.land (0 + L) 127 =? L))%Z (eq_refl _)).
    rewrite !andb_true_iff, !Z.eqb_eq in Hb. tauto.
Qed.

Lemma parseHeader_short (fin m : bool) (op L : Z) (rest : buffer) :
  (0 <= op < 16)%Z -> (0 <= L < 126)%Z ->
  parseHeader (((if fin then 128 else 0) + op)%Z :: ((if m then 128 else 0) + L)%Z :: rest)
  = Ok (mkHeader fin 0 0 0 op m L (if m then firstn 4 rest else alloc 4)
                 (if m then 6 else 2)).
Proof.
  intros Hop HL.
  destruct (first_byte_bits fin op Hop) as (F7 & F6 & F5 & F4 & F15).
  destruct (second_byte_bits m L ltac:(lia)) as (S7 & S127).
  unfold parseHeader. cbn [readUInt8 nth_error bind].
  rewrite F6, F5, F4. cbn [Z.eqb negb orb].
  rewrite S127, F15, F7, S7.
  replace (L =? 126)%Z with false by (symmetry; apply Z.eqb_neq; lia).
  cbn [bind].
  replace (L =? 127)%Z with false by (symmetry; apply Z.eqb_neq; lia).
  cbn [bind]. destruct fin, m; reflexivity.
Qed.

Lemma parseHeader_ext16 (fin m : bool) (op n : Z) (rest : buffer) :
  (0 <= op < 16)%Z -> (126 <= n < 65536)%Z -> n <> 127%Z ->
  parseHeader (((if fin then 128 else 0) + op)%Z :: ((if m then 128 else 0) + 126)%Z
               :: (n / 256)%Z :: (n mod 256)%Z :: rest)
  = Ok (mkHeader fin 0 0 0 op m n (if m then firstn 4 rest else alloc 4)
                 (if m then 8 else 4)).
Proof.
  intros Hop Hn H127.
  destruct (first_byte_bits fin op Hop) as (F7 & F6 & F5 & F4 & F15).
  destruct (second_byte_bits m 126 ltac:(lia)) as (S7 & S127).
  unfold parseHeader. cbn [readUInt8 nth_error bind].
  rewrite F6, F5, F4. cbn [Z.eqb negb orb].
  rewrite S127, F15, F7, S7. cbn [Z.eqb Pos.eqb].
  unfold readUInt16BE. cbn [length Nat.add Nat.leb get nth].
  cbn [bind].
  replace (n / 256 * 256 + n mod 256)%Z with n by (rewrite Z.mul_comm, <- Z.div_mod; lia).
  replace (n =? 127)%Z with false by (symmetry; apply Z.eqb_neq; exact H127).
  cbn [bind]. destruct fin, m; reflexivity.
Qed.

Lemma readFrame_complete (st : WebsocketParser) (chunk : buffer) (h : Header) :
  fragmentedFrame st = None -> chunk <> [] -> parseHeader chunk = Ok h ->
  h_byteOffset h + Z.to_nat (h_payloadLen h) <= length chunk ->
  let pl := Z.to_nat (h_payloadLen h) in
  let off := h_byteOffset h in
  let raw := firstn pl (skipn off chunk) in
  let payload := if h_mask h then unmask raw pl (h_maskingKey h) else raw in
  readFrame st chunk
  = (pushFrame st (mkFrame (h_fin h) (h_rsv1 h) (h_rsv2 h) (h_rsv3 h) (h_opcode h)
                     (h_mask h) pl payload (off + pl)),
     Ok (skipn (off + pl) chunk)).
Proof.
  intros Hnone Hne Eh Hlen pl off raw payload.
  unfold readFrame, readFragmentedBuffer. rewrite Hnone.
  replace (length chunk <=? 0) with false
    by (symmetry; apply Nat.leb_gt; destruct chunk; [congruence | simpl; lia]).
  rewrite Eh. fold pl off.
  assert (Hraw : slice chunk off (off + pl) = raw)
    by (unfold slice, raw; f_equal; lia).
  rewrite Hraw.
  assert (Hrl : length raw = pl)
    by (unfold raw; rewrite length_firstn, length_skipn; lia).
  replace (length raw <? pl) with false by (symmetry; apply Nat.ltb_ge; lia).
  fold payload.
  replace (length payload) with pl
    by (unfold payload; destruct (h_mask h); [rewrite length_unmask|]; lia).
  reflexivity.
Qed.

(** The outcome of [readFrame] on a chunk whose header parses, when no
    partial frame is pending: a pending partial frame or one more frame,
    both with the header's payload length and offset. *)
Lemma readFrame_header_outcome (st : WebsocketParser) (chunk : buffer) (h : Header) :
  fragmentedFrame st = None -> chunk <> [] -> parseHeader chunk = Ok h ->
  exists st' remainingBuff,
    readFrame st chunk = (st', Ok remainingBuff) /\
    ((parsedFrames st' = parsedFrames st /\
      exists ff, fragmentedFrame st' = Some ff /\
        ff_payloadLen ff = Z.to_nat (h_payloadLen h) /\ ff_byteOffset ff = h_byteOffset h) \/
     (fragmentedFrame st' = None /\
      exists f, parsedFrames st' = parsedFrames st ++ [f] /\
        payloadLen f = Z.to_nat (h_payloadLen h) /\
        frameLen f = h_byteOffset h + payloadLen f)).
Proof.
  intros Hnone Hne Eh.
  unfold readFrame, readFragmentedBuffer. rewrite Hnone.
  replace (length chunk <=? 0) with false
    by (symmetry; apply Nat.leb_gt; destruct chunk; [congruence | simpl; lia]).
  rewrite Eh.
  match goal with
  | |- context [if ?c then _ else _] => destruct c eqn:Hlt
  end.
  - do 2 eexists. split; [reflexivity|]. left. split; [reflexivity|].
    eexists. split; [reflexivity|]. split; reflexivity.
  - do 2 eexists. split; [reflexivity|]. right. split; [simpl; exact Hnone|].
    eexists. split; [reflexivity|]. split; [reflexivity|].
    cbn [frameLen payloadLen].
    apply Nat.ltb_ge in Hlt.
    destruct (h_mask h).
    + rewrite length_unmask. reflexivity.
    + unfold slice in *. rewrite length_firstn in *. lia.
Qed.

Lemma generateFirstByte_fields (o : ICreateFrameOptions) :
  generateFirstByte o
  = ((if o_fin o && ((o_opcode o =? 1) || (o_opcode o =? 2)) then 128 else 0)
     + (if (o_opcode o =? 1) then 1 else 2))%Z.
Proof.
  unfold generateFirstByte.
  destruct (o_opcode o =? 1)%Z, (o_fin o), (o_opcode o =? 2)%Z; reflexivity.
Qed.

(** Decoding what [createFrame] writes for a payload of at most 125 bytes. *)
Lemma readFrame_createFrame_short (payload rest : buffer) (o : ICreateFrameOptions)
    (st : WebsocketParser) :
  Forall byte_ok payload -> length payload <= 125 -> fragmentedFrame st = None ->
  createFrame payload o = Ok (generateFirstByte o :: Z.of_nat (length payload) :: payload) /\
  readFrame st ((generateFirstByte o :: Z.of_nat (length payload) :: payload) ++ rest)
  = (pushFrame st
       (mkFrame (o_fin o && ((o_opcode o =? 1)%Z || (o_opcode o =? 2)%Z)) 0 0 0
          (if (o_opcode o =? 1)%Z then 1 else 2)%Z false (length payload) payload
          (2 + length payload)),
     Ok rest).
Proof.
  intros Hok Hlen Hnone. split; [apply createFrame_short; auto; lia|].
  assert (Hh := parseHeader_short (o_fin o && ((o_opcode o =? 1)%Z || (o_opcode o =? 2)%Z))
                  false (if (o_opcode o =? 1)%Z then 1 else 2)%Z (Z.of_nat (length payload))
                  (payload ++ rest)
                  ltac:(destruct (o_opcode o =? 1)%Z; lia) ltac:(lia)).
  rewrite <- generateFirstByte_fields in Hh.
  change (0 + Z.of_nat (length payload))%Z with (Z.of_nat (length payload)) in Hh.
  rewrite <- app_comm_cons, <- app_comm_cons.
  rewrite (readFrame_complete st
             (generateFirstByte o :: Z.of_nat (length payload) :: payload ++ rest) _
             Hnone ltac:(discriminate) Hh)
    by (cbn [h_byteOffset h_payloadLen]; simpl; rewrite length_app; lia).
  cbn [h_fin h_rsv1 h_rsv2 h_rsv3 h_opcode h_mask h_payloadLen h_byteOffset
       h_maskingKey].
  rewrite Nat2Z.id. cbn [skipn Nat.add].
  rewrite firstn_app, Nat.sub_diag, firstn_O, app_nil_r, firstn_all.
  rewrite skipn_app, skipn_all, Nat.sub_diag. reflexivity.
Qed.

Lemma readLoop_empty (fuel : nat) (st : WebsocketParser) :
  readLoop fuel st [] = (st, Ok []).
Proof. destruct fuel; reflexivity. Qed.

Lemma readFrame_empty_none (st : WebsocketParser) :
  fragmentedFrame st = None -> readFrame st [] = (st, Ok []).
Proof. intros H. unfold readFrame, readFragmentedBuffer. rewrite H. reflexivity. Qed.

Lemma batch_length (msgs : list (buffer * ICreateFrameOptions)) (chunks : list buffer) :
  Forall2 (fun m bytes => createFrame (fst m) (snd m) = Ok bytes) msgs chunks ->
  Forall (fun m => Forall byte_ok (fst m) /\ length (fst m) <= 125) msgs ->
  length msgs <= length (concat chunks).
Proof.
  induction 1 as [|m bytes msgs chunks Hc _ IH]; intros Hok; [simpl; lia|].
  inversion Hok as [|? ? [Hb Hl] Hok']; subst.
  rewrite createFrame_short in Hc; [| exact Hb | unfold buffer in *; lia | unfold buffer in *; lia]. injection Hc as <-.
  simpl. rewrite length_app. specialize (IH Hok'). simpl. lia.
Qed.

Lemma readLoop_batch (msgs : list (buffer * ICreateFrameOptions)) (chunks : list buffer) :
  Forall2 (fun m bytes => createFrame (fst m) (snd m) = Ok bytes) msgs chunks ->
  Forall (fun m => Forall byte_ok (fst m) /\ length (fst m) <= 125) msgs ->
  forall (st : WebsocketParser) fuel,
  fragmentedFrame st = None -> length msgs <= fuel ->
  readLoop fuel st (concat chunks)
  = (mkParser (parsedFrames st ++
       map (fun '(payload, o) =>
              mkFrame (o_fin o && ((o_opcode o =? 1)%Z || (o_opcode o =? 2)%Z)) 0 0 0
                (if (o_opcode o =? 1)%Z then 1 else 2)%Z false (length payload) payload
                (2 + length payload)) msgs) None,
     Ok []).
Proof.
  induction 1 as [|[payload o] bytes msgs chunks Hc _ IH]; intros Hok st fuel Hnone Hfuel.
  - simpl. rewrite readLoop_empty, app_nil_r.
    destruct st as [fs ff]; simpl in Hnone; subst; reflexivity.
  - inversion Hok as [|? ? [Hb Hl] Hok']; subst. simpl in Hb, Hl, Hc.
    destruct (readFrame_createFrame_short payload (concat chunks) o st Hb Hl Hnone)
      as [Hc' Hr].
    rewrite Hc in Hc'. injection Hc' as ->.
    destruct fuel as [|fuel]; [simpl in Hfuel; lia|].
    cbn [concat readLoop].
    match goal with
    | |- context [0 <? ?l] =>
        replace (0 <? l) with true by (symmetry; apply Nat.ltb_lt; simpl; lia)
    end.
    rewrite Hr.
    rewrite (IH Hok' (pushFrame st _) fuel Hnone) by (simpl in Hfuel; lia).
    cbn [parsedFrames pushFrame map]. rewrite <- app_assoc. reflexivity.
Qed.

Lemma unmask_unmask (raw : buffer) (key : buffer) :
  unmask (unmask raw (length raw) key) (length raw) key = raw.
Proof.
  unfold unmask at 1.
  transitivity (map (get raw) (seq 0 (length raw))).
  - apply map_ext_in. intros i Hi. apply in_seq in Hi.
    unfold unmask. rewrite get_map_seq by lia.
    rewrite Z.lxor_assoc, Z.lxor_nilpotent, Z.lxor_0_r. reflexivity.
  - rewrite map_get_seq, firstn_all, Nat.sub_diag, app_nil_r. reflexivity.
Qed.

(** The socket data handler of the README, given the concatenation of
    the frames [createFrame] builds for several payloads of at most 125
    bytes, queues exactly one frame per payload, in order, and ends with
    an empty remainder and no pending frame. *)
Theorem onData_createFrame_batch (msgs : list (buffer * ICreateFrameOptions))
    (chunks : list buffer) (st : WebsocketParser) :
  fragmentedFrame st = None ->
  Forall (fun m => Forall byte_ok (fst m) /\ length (fst m) <= 125) msgs ->
  Forall2 (fun m bytes => createFrame (fst m) (snd m) = Ok bytes) msgs chunks ->
  onData st (concat chunks)
  = (mkParser (parsedFrames st ++
       map (fun '(payload, o) =>
              mkFrame (o_fin o && ((o_opcode o =? 1)%Z || (o_opcode o =? 2)%Z)) 0 0 0
                (if (o_opcode o =? 1)%Z then 1 else 2)%Z false (length payload) payload
                (2 + length payload)) msgs) None,
     Ok []).
Proof.
  intros Hnone Hok Hc. unfold onData.
  destruct Hc as [|[payload o] bytes msgs chunks Hc1 Hc].
  - simpl. rewrite (readFrame_empty_none st Hnone). simpl. rewrite app_nil_r.
    destruct st as [fs ff]; simpl in Hnone; subst; reflexivity.
  - inversion Hok as [|? ? [Hb Hl] Hok']; subst. simpl in Hb, Hl, Hc1.
    destruct (readFrame_createFrame_short payload (concat chunks) o st Hb Hl Hnone)
      as [Hc' Hr].
    rewrite Hc1 in Hc'. injection Hc' as ->.
    cbn [concat]. rewrite Hr.
    pose proof (batch_length msgs chunks Hc Hok') as Hbl.
    rewrite (readLoop_batch msgs chunks Hc Hok' (pushFrame st _) _ Hnone)
      by (rewrite length_app; lia).
    cbn [parsedFrames pushFrame map]. rewrite <- app_assoc. reflexivity.
Qed.

(** A masked client frame with a 7-bit length (at most 125 bytes) is
    decoded in one call: the payload is unmasked with the 4-byte key,
    [frameLen = 6 + length], and the bytes after the frame are returned. *)
Theorem readFrame_client_short (st : WebsocketParser) (fin : bool) (op : Z)
    (key payload rest : buffer) :
  fragmentedFrame st = None -> (0 <= op < 16)%Z -> length key = 4 ->
  length payload <= 125 ->
  readFrame st (((if fin then 128 else 0) + op)%Z
                :: (128 + Z.of_nat (length payload))%Z
                :: key ++ unmask payload (length payload) key ++ rest)
  = (pushFrame st (mkFrame fin 0 0 0 op true (length payload) payload
                     (6 + length payload)),
     Ok rest).
Proof.
  intros Hnone Hop Hkey Hlen.
  set (n := length payload).
  set (c := key ++ unmask payload n key ++ rest).
  assert (Hh := parseHeader_short fin true op (Z.of_nat n) c Hop ltac:(lia)).
  change ((if true then 128 else 0) + Z.of_nat n)%Z with (128 + Z.of_nat n)%Z in Hh.
  cbn iota in Hh.
  assert (Hk : firstn 4 c = key)
    by (unfold c; rewrite <- Hkey, firstn_app, Nat.sub_diag, firstn_O, app_nil_r,
                   firstn_all; reflexivity).
  rewrite Hk in Hh.
  assert (Hlc : length c = 4 + n + length rest)
    by (unfold c; rewrite !length_app, length_unmask; lia).
  rewrite (readFrame_complete st
             (((if fin then 128 else 0) + op)%Z :: (128 + Z.of_nat n)%Z :: c) _
             Hnone ltac:(discriminate) Hh)
    by (cbn [h_byteOffset h_payloadLen]; simpl; lia).
  cbn [h_fin h_rsv1 h_rsv2 h_rsv3 h_opcode h_mask h_payloadLen h_byteOffset
       h_maskingKey].
  rewrite Nat2Z.id.
  assert (Hs4 : skipn 4 c = unmask payload n key ++ rest)
    by (unfold c; rewrite <- Hkey, skipn_app, skipn_all, Nat.sub_diag; reflexivity).
  change (skipn 6 (?a :: ?b :: c)) with (skipn 4 c).
  change (skipn (6 + n) (?a :: ?b :: c)) with (skipn (4 + n) c).
  replace (4 + n) with (n + 4) by lia.
  rewrite <- skipn_skipn, Hs4.
  rewrite firstn_app, skipn_app, length_unmask, Nat.sub_diag, firstn_O, app_nil_r.
  rewrite skipn_all2 by (rewrite length_unmask; lia).
  rewrite (firstn_all2 (n := n) (unmask payload n key)) by (rewrite length_unmask; lia).
  unfold n. rewrite unmask_unmask. reflexivity.
Qed.

(** A masked client frame with the 16-bit extended length (126 to 65535
    bytes, except 127) is decoded in one call: the payload is unmasked
    with the 4-byte key, [frameLen = 8 + length], and the bytes after the
    frame are returned. *)
Theorem readFrame_client_ext16 (st : WebsocketParser) (fin : bool) (op : Z)
    (key payload rest : buffer) :
  fragmentedFrame st = None -> (0 <= op < 16)%Z -> length key = 4 ->
  (126 <= Z.of_nat (length payload) < 65536)%Z -> length payload <> 127 ->
  readFrame st (((if fin then 128 else 0) + op)%Z :: 254%Z
                :: (Z.of_nat (length payload) / 256)%Z
                :: (Z.of_nat (length payload) mod 256)%Z
                :: key ++ unmask payload (length payload) key ++ rest)
  = (pushFrame st (mkFrame fin 0 0 0 op true (length payload) payload
                     (8 + length payload)),
     Ok rest).
Proof.
  intros Hnone Hop Hkey Hlen H127.
  set (n := length payload).
  set (c := key ++ unmask payload n key ++ rest).
  assert (H127' : Z.of_nat n <> 127%Z) by (unfold n; lia).
  assert (Hh := parseHeader_ext16 fin true op (Z.of_nat n) c Hop Hlen H127').
  change ((if true then 128 else 0) + 126)%Z with 254%Z in Hh.
  cbn iota in Hh.
  assert (Hk : firstn 4 c = key)
    by (unfold c; rewrite <- Hkey, firstn_app, Nat.sub_diag, firstn_O, app_nil_r,
                   firstn_all; reflexivity).
  rewrite Hk in Hh.
  assert (Hlc : length c = 4 + n + length rest)
    by (unfold c; rewrite !length_app, length_unmask; lia).
  rewrite (readFrame_complete st
             (((if fin then 128 else 0) + op)%Z :: 254%Z :: (Z.of_nat n / 256)%Z
              :: (Z.of_nat n mod 256)%Z :: c) _
             Hnone ltac:(discriminate) Hh)
    by (cbn [h_byteOffset h_payloadLen]; simpl; lia).
  cbn [h_fin h_rsv1 h_rsv2 h_rsv3 h_opcode h_mask h_payloadLen h_byteOffset
       h_maskingKey].
  rewrite Nat2Z.id.
  assert (Hs4 : skipn 4 c = unmask payload n key ++ rest)
    by (unfold c; rewrite <- Hkey, skipn_app, skipn_all, Nat.sub_diag; reflexivity).
  change (skipn 8 (?a :: ?b :: ?x :: ?y :: c)) with (skipn 4 c).
  change (skipn (8 + n) (?a :: ?b :: ?x :: ?y :: c)) with (skipn (4 + n) c).
  replace (4 + n) with (n + 4) by lia.
  rewrite <- skipn_skipn, Hs4.
  rewrite firstn_app, skipn_app, length_unmask, Nat.sub_diag, firstn_O, app_nil_r.
  rewrite skipn_all2 by (rewrite length_unmask; lia).
  rewrite (firstn_all2 (n := n) (unmask payload n key)) by (rewrite length_unmask; lia).
  unfold n. rewrite unmask_unmask. reflexivity.
Qed.

(** A header whose 16-bit extended length is 127 is read again as the
    64-bit form. On a parser with no pending partial frame, for a first
    byte with RSV1-3 clear and at least 8 bytes after the 16-bit length:
    when the first four of them are not all zero [readFrame] throws
    [UnsupportedLengthError] and leaves the parser as it was; when they
    are zero, the last four give the [payloadLen] of the frame (or pending
    partial frame), whose header ends after 2 + 2 + 8 bytes (plus 4 for a
    masking key). *)
Theorem readFrame_ext16_127 (st : WebsocketParser) (fin m : bool) (op : Z)
    (payload : buffer) :
  fragmentedFrame st = None -> (0 <= op < 16)%Z -> Forall byte_ok payload ->
  8 <= length payload ->
  let chunk := ((if fin then 128 else 0) + op)%Z :: ((if m then 128 else 0) + 126)%Z
               :: 0%Z :: 127%Z :: payload in
  (firstn 4 payload <> [0; 0; 0; 0]%Z ->
   readFrame st chunk = (st, Err UnsupportedLengthError)) /\
  (firstn 4 payload = [0; 0; 0; 0]%Z ->
   let second := (((get payload 4 * 256 + get payload 5) * 256 + get payload 6) * 256
                  + get payload 7)%Z in
   let headerLen := 2 + 2 + 8 + (if m then 4 else 0) in
   exists st' remainingBuff,
     readFrame st chunk = (st', Ok remainingBuff) /\
     ((parsedFrames st' = parsedFrames st /\
       exists ff, fragmentedFrame st' = Some ff /\
         ff_payloadLen ff = Z.to_nat second /\ ff_byteOffset ff = headerLen) \/
      (fragmentedFrame st' = None /\
       exists f, parsedFrames st' = parsedFrames st ++ [f] /\
         payloadLen f = Z.to_nat second /\ frameLen f = headerLen + payloadLen f))).
Proof.
  intros Hnone Hop Hok Hlen chunk.
  destruct (first_byte_bits fin op Hop) as (F7 & F6 & F5 & F4 & F15).
  destruct (second_byte_bits m 126 ltac:(lia)) as (S7 & S127).
  destruct payload as [|a [|b [|c [|d p]]]]; simpl in Hlen; try lia.
  assert (Eh : parseHeader chunk =
    if negb ((((a * 256 + b) * 256 + c) * 256 + d =? 0)%Z)
    then Err UnsupportedLengthError
    else Ok (mkHeader fin 0 0 0 op m
               (((get p 0 * 256 + get p 1) * 256 + get p 2) * 256 + get p 3)%Z
               (if m then slice chunk 12 16 else alloc 4) (if m then 16 else 12))).
  { unfold chunk, parseHeader. cbn [readUInt8 nth_error bind].
    rewrite F6, F5, F4. cbn [Z.eqb negb orb].
    rewrite S127, F15, F7, S7. cbn [Z.eqb Pos.eqb].
    unfold readUInt16BE. cbn [length Nat.add Nat.leb get nth].
    replace (4 <=? S (S (S (S (S (S (S (S (length p))))))))) with true
      by (symmetry; apply Nat.leb_le; lia).
    cbn [bind Z.mul Z.add Z.eqb Pos.eqb].
    unfold readUInt32BE. cbn [length Nat.add get nth].
    replace (8 <=? S (S (S (S (S (S (S (S (length p))))))))) with true
      by (symmetry; apply Nat.leb_le; lia).
    replace (12 <=? S (S (S (S (S (S (S (S (length p))))))))) with true
      by (symmetry; apply Nat.leb_le; lia).
    cbn [bind]. destruct (negb _); [reflexivity|].
    cbn [bind]. destruct fin, m; reflexivity. }
  inversion Hok as [|? ? Ha Hok1]; subst.
  inversion Hok1 as [|? ? Hb Hok2]; subst.
  inversion Hok2 as [|? ? Hc Hok3]; subst.
  inversion Hok3 as [|? ? Hd _]; subst.
  unfold byte_ok in Ha, Hb, Hc, Hd.
  split.
  - intros H0.
    assert (Hv : (((a * 256 + b) * 256 + c) * 256 + d =? 0)%Z = false).
    { apply Z.eqb_neq. intros Hv. apply H0. simpl.
      assert (a = 0 /\ b = 0 /\ c = 0 /\ d = 0)%Z as (-> & -> & -> & ->) by lia.
      reflexivity. }
    rewrite Hv in Eh. cbn [negb] in Eh.
    unfold readFrame, readFragmentedBuffer. rewrite Hnone. cbn [length Nat.leb].
    rewrite Eh. reflexivity.
  - intros H0 second headerLen.
    injection H0 as -> -> -> ->. cbn [Z.mul Z.add Z.eqb negb] in Eh.
    destruct (readFrame_header_outcome st chunk _ Hnone ltac:(discriminate) Eh)
      as (st' & remainingBuff & E & Hout).
    exists st', remainingBuff. split; [exact E|].
    cbn [h_payloadLen h_byteOffset] in Hout.
    replace (if m then 16 else 12) with headerLen in Hout
      by (unfold headerLen; destruct m; reflexivity).
    exact Hout.
Qed.

(** For a payload of 128 to 253 bytes, the length byte [createFrame]
    writes has bit 7 set, so [readFrame] decodes its output as a masked
    frame of [length - 128] bytes, taking the first 4 payload bytes as the
    masking key, and returns the rest of the payload as a remainder. *)
Theorem createFrame_readFrame_mask_misread (payload : buffer) (o : ICreateFrameOptions)
    (st : WebsocketParser) :
  Forall byte_ok payload -> 128 <= length payload <= 253 -> fragmentedFrame st = None ->
  let n := length payload - 128 in
  exists bytes, createFrame payload o = Ok bytes /\
    readFrame st bytes
    = (pushFrame st
         (mkFrame (o_fin o && ((o_opcode o =? 1)%Z || (o_opcode o =? 2)%Z)) 0 0 0
            (if (o_opcode o =? 1)%Z then 1 else 2)%Z true n
            (unmask (firstn n (skipn 4 payload)) n (firstn 4 payload)) (6 + n)),
       Ok (skipn (4 + n) payload)).
Proof.
  intros Hok Hlen Hnone n.
  exists (generateFirstByte o :: Z.of_nat (length payload) :: payload).
  split; [apply createFrame_short; auto; lia|].
  assert (Hh := parseHeader_short (o_fin o && ((o_opcode o =? 1)%Z || (o_opcode o =? 2)%Z))
                  true (if (o_opcode o =? 1)%Z then 1 else 2)%Z (Z.of_nat n)
                  payload ltac:(destruct (o_opcode o =? 1)%Z; lia) ltac:(unfold n; lia)).
  rewrite <- generateFirstByte_fields in Hh.
  replace ((if true then 128 else 0) + Z.of_nat n)%Z with (Z.of_nat (length payload)) in Hh
    by (unfold n, buffer in *; lia).
  cbn iota in Hh.
  rewrite (readFrame_complete st
             (generateFirstByte o :: Z.of_nat (length payload) :: payload) _
             Hnone ltac:(discriminate) Hh)
    by (cbn [h_byteOffset h_payloadLen]; simpl; unfold n; lia).
  cbn [h_fin h_rsv1 h_rsv2 h_rsv3 h_opcode h_mask h_payloadLen h_byteOffset
       h_maskingKey].
  rewrite Nat2Z.id. reflexivity.
Qed.

Lemma readFragmentedBuffer_length (st : WebsocketParser) (chunk : buffer) :
  length (snd (readFragmentedBuffer st chunk)) <= length chunk.
Proof.
  unfold readFragmentedBuffer. destruct (fragmentedFrame st) as [ff|]; [|simpl; lia].
  destruct (length chunk <? _); simpl; [lia|].
  unfold slice_from. rewrite length_skipn. lia.
Qed.

Lemma headerLen_ok_ge2 (m : bool) (off : nat) : headerLen_ok m off -> 2 <= off.
Proof. intros [ext [_ ->]]. lia. Qed.

Lemma readFrame_rest_length (st st' : WebsocketParser) (chunk rest : buffer) :
  readFrame st chunk = (st', Ok rest) ->
  length rest <= length chunk /\ (chunk <> [] -> length rest < length chunk).
Proof.
  intros H. unfold readFrame in H.
  pose proof (readFragmentedBuffer_length st chunk) as Hl.
  destruct (readFragmentedBuffer st chunk) as [st1 c1]. simpl in Hl.
  assert (Hne : chunk <> [] -> 0 < length chunk)
    by (intros Hc; destruct chunk; [congruence | simpl; lia]).
  destruct (length c1 <=? 0) eqn:E0.
  - injection H as _ <-. apply Nat.leb_le in E0. split; [lia|]. intros Hc.
    specialize (Hne Hc). lia.
  - apply Nat.leb_gt in E0.
    destruct (parseHeader c1) as [h|e] eqn:Eh; [|discriminate].
    pose proof (headerLen_ok_ge2 _ _ (parseHeader_headerLen c1 h Eh)) as H2.
    destruct (length _ <? _).
    + injection H as _ <-. simpl. split; [lia|]. intros Hc. specialize (Hne Hc). lia.
    + injection H as _ <-. unfold slice_from. rewrite length_skipn. lia.
Qed.

(** On a non-empty chunk, a [readFrame] call that returns gives a
    remainder strictly shorter than the chunk. *)
Theorem readFrame_progress (st st' : WebsocketParser) (chunk rest : buffer) :
  chunk <> [] -> readFrame st chunk = (st', Ok rest) -> length rest < length chunk.
Proof.
  intros Hc H. exact (proj2 (readFrame_rest_length st st' chunk rest H) Hc).
Qed.

Lemma readLoop_S (fuel : nat) (st : WebsocketParser) (r : buffer) :
  length r <= fuel -> readLoop (S fuel) st r = readLoop fuel st r.
Proof.
  revert st r. induction fuel as [|fuel IH]; intros st r Hr.
  - destruct r; [reflexivity | simpl in Hr; lia].
  - cbn [readLoop]. destruct (0 <? length r) eqn:E; [|reflexivity].
    apply Nat.ltb_lt in E.
    destruct (readFrame st r) as [st1 [r1|e]] eqn:Ef; [|reflexivity].
    assert (Hr1 : length r1 < length r)
      by (apply (proj2 (readFrame_rest_length st st1 r r1 Ef));
          destruct r; simpl in E; [lia | discriminate]).
    fold readLoop. apply IH. lia.
Qed.

(** The handler's [while] loop makes at most as many [readFrame] calls
    as the chunk has bytes: allowing more rounds gives the same result. *)
Theorem readLoop_rounds (fuel : nat) (st : WebsocketParser) (r : buffer) :
  length r <= fuel -> readLoop fuel st r = readLoop (length r) st r.
Proof.
  intros H. induction H as [|fuel H IH]; [reflexivity|].
  rewrite readLoop_S by exact H. exact IH.
Qed.

(** [readFrame] only appends to the frame queue: at most one frame when
    it completes a pending frame, plus at most one more when it returns
    normally. *)
Theorem readFrame_frames_count (st : WebsocketParser) (chunk : buffer) :
  let '(st', res) := readFrame st chunk in
  exists l, parsedFrames st' = parsedFrames st ++ l /\
    length l <= (match fragmentedFrame st with Some _ => 1 | None => 0 end)
                + (match res with Ok _ => 1 | Err _ => 0 end).
Proof.
  unfold readFrame, readFragmentedBuffer.
  destruct (fragmentedFrame st) as [ff|] eqn:Hff.
  - destruct (length chunk <? _).
    + cbn. exists []. rewrite app_nil_r. split; [reflexivity | simpl; lia].
    + cbn zeta. cbn [fst snd].
      destruct (length (slice_from chunk _) <=? 0).
      * cbn. eexists. split; [reflexivity | simpl; lia].
      * destruct (parseHeader _) as [h|e].
        -- destruct (length _ <? _); cbn.
           ++ eexists. split; [reflexivity | simpl; lia].
           ++ eexists. split; [rewrite <- app_assoc; reflexivity | simpl; lia].
        -- cbn. eexists. split; [reflexivity | simpl; lia].
  - destruct (length chunk <=? 0).
    + exists []. rewrite app_nil_r. split; [reflexivity | simpl; lia].
    + destruct (parseHeader chunk) as [h|e].
      * destruct (length _ <? _); cbn.
        -- exists []. rewrite app_nil_r. split; [reflexivity | simpl; lia].
        -- eexists. split; [reflexivity | simpl; lia].
      * exists []. rewrite app_nil_r. split; [reflexivity | simpl; lia].
Qed.

(** When [readFrame] throws, the parser is left as [readFragmentedBuffer]
    made it: a pending frame that the start of the chunk completed stays
    queued although the rest of the chunk throws; on a parser with no
    pending frame a throwing [readFrame] changes nothing. *)
Theorem readFrame_throw_state (st st' : WebsocketParser) (chunk : buffer) (e : exn) :
  readFrame st chunk = (st', Err e) ->
  st' = fst (readFragmentedBuffer st chunk) /\ (fragmentedFrame st = None -> st' = st).
Proof.
  intros H.
  assert (H1 : st' = fst (readFragmentedBuffer st chunk)).
  { unfold readFrame in H.
    destruct (readFragmentedBuffer st chunk) as [st1 c1]. simpl.
    destruct (length c1 <=? 0); [discriminate|].
    destruct (parseHeader c1) as [h|e']; [|congruence].
    destruct (length _ <? _); discriminate. }
  split; [exact H1|]. intros Hnone. rewrite H1.
  unfold readFragmentedBuffer. rewrite Hnone. reflexivity.
Qed.

(** On every parser state reachable from [new WebsocketParser()], an
    empty chunk changes nothing and [readFrame] returns it. *)
Theorem readFrame_empty_chunk (st : WebsocketParser) :
  reachable st -> readFrame st [] = (st, Ok []).
Proof.
  intros Hr. destruct (reachable_inv st Hr) as [_ Hp].
  destruct (fragmentedFrame st) as [ff|] eqn:Hff.
  - destruct (Hp ff eq_refl) as [Hlt _].
    rewrite (readFrame_short st ff [] Hff) by (simpl; lia).
    rewrite app_nil_r. destruct st as [fs ff0]; simpl in Hff; subst.
    destruct ff; reflexivity.
  - exact (readFrame_empty_none st Hff).
Qed.

Lemma readFrame_after_pending (st : WebsocketParser) (ff : IFragmentedFrame)
    (chunk : buffer) :
  fragmentedFrame st = Some ff ->
  ff_payloadLen ff - length (ff_rawPayload ff) <= length chunk ->
  readFrame st chunk
  = readFrame (fst (readFragmentedBuffer st chunk)) (snd (readFragmentedBuffer st chunk)).
Proof.
  intros Hff Hl. rewrite (readFragmentedBuffer_long st ff chunk Hff Hl).
  unfold readFrame at 1. rewrite (readFragmentedBuffer_long st ff chunk Hff Hl).
  cbn [fst snd]. unfold readFrame. reflexivity.
Qed.

(** On a parser with no pending frame, take a header with RSV1-3 clear,
    the mask bit set and a 7-bit length [n] from 1 to 125, in a chunk
    that ends after fewer than 4 bytes of the masking key. [readFrame]
    does not throw: it stores a pending frame whose key is the truncated
    one and whose header offset is 6.  The next chunk's first [n] bytes,
    including the rest of the key, are then all taken as masked payload,
    unmasked with the truncated key (its missing bytes count as 0). *)
Theorem readFrame_truncated_key (st : WebsocketParser) (fin : bool) (op : Z)
    (kpart next : buffer) (n : nat) :
  fragmentedFrame st = None -> (0 <= op < 16)%Z -> 1 <= n <= 125 ->
  length kpart < 4 -> n <= length next ->
  let c1 := ((if fin then 128 else 0) + op)%Z :: (128 + Z.of_nat n)%Z :: kpart in
  readFrame st c1
  = (mkParser (parsedFrames st) (Some (mkFragmented fin 0 0 0 true op n [] kpart 6)),
     Ok []) /\
  exists l, parsedFrames (fst (readFrame (fst (readFrame st c1)) next))
            = parsedFrames st ++
              mkFrame fin 0 0 0 op true n (unmask (firstn n next) n kpart) (6 + n) :: l.
Proof.
  intros Hnone Hop Hn Hk Hnext c1.
  assert (E1 : readFrame st c1
               = (mkParser (parsedFrames st)
                    (Some (mkFragmented fin 0 0 0 true op n [] kpart 6)), Ok [])).
  { assert (Hh := parseHeader_short fin true op (Z.of_nat n) kpart Hop ltac:(lia)).
    change ((if true then 128 else 0) + Z.of_nat n)%Z with (128 + Z.of_nat n)%Z in Hh.
    cbn iota in Hh. rewrite firstn_all2 in Hh by lia.
    unfold readFrame, readFragmentedBuffer. rewrite Hnone. fold c1.
    replace (length c1 <=? 0) with false by reflexivity.
    fold c1 in Hh. rewrite Hh. cbn [h_fin h_rsv1 h_rsv2 h_rsv3 h_opcode h_mask h_payloadLen
                     h_byteOffset h_maskingKey].
    rewrite Nat2Z.id.
    assert (Hraw : slice c1 6 (6 + n) = []).
    { unfold slice. rewrite skipn_all2; [apply firstn_nil | simpl; lia]. }
    rewrite Hraw.
    replace (length (@nil Z) <? n) with true by (symmetry; apply Nat.ltb_lt; simpl; lia).
    reflexivity. }
  split; [exact E1|]. rewrite E1. cbn [fst].
  set (st1 := mkParser (parsedFrames st)
                (Some (mkFragmented fin 0 0 0 true op n [] kpart 6))).
  set (ff := mkFragmented fin 0 0 0 true op n [] kpart 6).
  assert (Hff : fragmentedFrame st1 = Some ff) by reflexivity.
  assert (Hl : ff_payloadLen ff - length (ff_rawPayload ff) <= length next)
    by (simpl; lia).
  rewrite (readFrame_after_pending st1 ff next Hff Hl).
  rewrite (readFragmentedBuffer_long st1 ff next Hff Hl). cbn [fst snd].
  match goal with
  | |- context [readFrame ?s ?c] =>
      destruct (readFrame_frames s c) as [l Hl2]; rewrite Hl2
  end.
  exists l. unfold ff, st1. cbn [parsedFrames ff_fin ff_rsv1 ff_rsv2 ff_rsv3 ff_opcode ff_mask ff_payloadLen ff_rawPayload ff_maskingKey ff_byteOffset length app].
  rewrite Nat.sub_0_r, length_unmask, <- app_assoc. reflexivity.
Qed.

Lemma lxor_byte (a b : Z) : byte_ok a -> byte_ok b -> byte_ok (Z.lxor a b).
Proof.
  unfold byte_ok. intros Ha Hb.
  assert (H0 : (0 <= Z.lxor a b)%Z) by (apply Z.lxor_nonneg; lia).
  split; [exact H0|].
  destruct (Z.eq_dec (Z.lxor a b) 0) as [->|Hne]; [lia|].
  assert (Hl : (Z.log2 (Z.lxor a b) <= Z.max (Z.log2 a) (Z.log2 b))%Z)
    by (apply Z.log2_lxor; lia).
  assert (Ha7 : (Z.log2 a <= 7)%Z)
    by (change 7%Z with (Z.log2 255); apply Z.log2_le_mono; lia).
  assert (Hb7 : (Z.log2 b <= 7)%Z)
    by (change 7%Z with (Z.log2 255); apply Z.log2_le_mono; lia).
  destruct (Z.log2_spec (Z.lxor a b) ltac:(lia)) as [_ Hs].
  assert (Hp : (2 ^ Z.succ (Z.log2 (Z.lxor a b)) <= 2 ^ 8)%Z)
    by (apply Z.pow_le_mono_r; lia).
  change (2 ^ 8)%Z with 256%Z in Hp. lia.
Qed.

Lemma get_byte (b : buffer) (i : nat) : Forall byte_ok b -> byte_ok (get b i).
Proof.
  intros H. unfold get. destruct (Nat.lt_ge_cases i (length b)) as [Hi|Hi].
  - rewrite Forall_forall in H. apply H, nth_In, Hi.
  - rewrite nth_overflow by exact Hi. unfold byte_ok. lia.
Qed.

Lemma unmask_loop_from (raw key : buffer) (i r : nat) :
  Forall byte_ok raw -> Forall byte_ok key ->
  unmask_loop raw key
    (map (fun i => Z.lxor (get raw i) (get key (i mod 4))) (seq 0 i) ++ repeat 0%Z r) i r
  = Ok (map (fun i => Z.lxor (get raw i) (get key (i mod 4))) (seq 0 (i + r))).
Proof.
  intros Hr Hk. revert i. induction r as [|r IH]; intros i.
  - rewrite app_nil_r, Nat.add_0_r. reflexivity.
  - cbn [unmask_loop repeat].
    set (f := fun i => Z.lxor (get raw i) (get key (i mod 4))).
    rewrite writeUInt8_ok.
    2: { apply lxor_byte; apply get_byte; assumption. }
    2: { rewrite length_app, length_map, length_seq. simpl. lia. }
    cbn [bind].
    assert (Hs : set_nth (map f (seq 0 i) ++ 0%Z :: repeat 0%Z r) i (f i)
                 = map f (seq 0 (S i)) ++ repeat 0%Z r).
    { pose proof (set_nth_app (map f (seq 0 i)) (repeat 0%Z r) 0%Z (f i)) as E.
      rewrite length_map, length_seq in E. rewrite E.
      rewrite seq_S, map_app, <- app_assoc. reflexivity. }
    change (Z.lxor (get raw i) (get key (i mod 4))) with (f i).
    rewrite Hs.
    rewrite IH. f_equal. f_equal. f_equal. lia.
Qed.

(** The loop of [unmask] never throws on byte inputs: every [writeUInt8]
    gets a byte in range, and the result is [rawPayload[i] ^
    maskingKey[i % 4]] for [i < payloadLen], bytes past either buffer
    read as 0. *)
Theorem unmask_writes_ok (rawPayload : buffer) (payloadLen : nat) (maskingKey : buffer) :
  Forall byte_ok rawPayload -> Forall byte_ok maskingKey ->
  unmask_writes rawPayload payloadLen maskingKey
  = Ok (unmask rawPayload payloadLen maskingKey).
Proof.
  intros Hr Hk. unfold unmask_writes, alloc.
  exact (unmask_loop_from rawPayload maskingKey 0 payloadLen Hr Hk).
Qed.

(** On a parser with no pending frame, a chunk whose first byte has
    RSV1-3 clear and that is cut before the end of the length fields makes
    [readFrame] throw [RangeError] and leaves the parser unchanged: that
    first byte alone, a 16-bit length form with fewer than 2 length bytes,
    or a 64-bit length form with fewer than 8.  (With an RSV bit set the
    ProtocolError of C4 comes first.) *)
Theorem readFrame_header_cut (st : WebsocketParser) (fin m : bool) (op : Z) (rest : buffer) :
  fragmentedFrame st = None -> (0 <= op < 16)%Z ->
  let b0 := ((if fin then 128 else 0) + op)%Z in
  readFrame st [b0] = (st, Err RangeError) /\
  (length rest < 2 ->
   readFrame st (b0 :: ((if m then 128 else 0) + 126)%Z :: rest) = (st, Err RangeError)) /\
  (length rest < 8 ->
   readFrame st (b0 :: ((if m then 128 else 0) + 127)%Z :: rest) = (st, Err RangeError)).
Proof.
  intros Hnone Hop b0.
  destruct (first_byte_bits fin op Hop) as (F7 & F6 & F5 & F4 & F15).
  fold b0 in F7, F6, F5, F4, F15.
  unfold readFrame, readFragmentedBuffer. rewrite Hnone. cbn [length Nat.leb].
  unfold parseHeader. cbn [readUInt8 nth_error bind].
  rewrite F6, F5, F4. cbn [Z.eqb negb orb].
  split; [reflexivity|]. split.
  - intros Hr. destruct (second_byte_bits m 126 ltac:(lia)) as (S7 & S127).
    rewrite S127. cbn [Z.eqb Pos.eqb].
    unfold readUInt16BE. cbn [length Nat.add].
    replace (4 <=? S (S (length rest))) with false by (symmetry; apply Nat.leb_gt; lia).
    reflexivity.
  - intros Hr. destruct (second_byte_bits m 127 ltac:(lia)) as (S7 & S127).
    rewrite S127. cbn [Z.eqb Pos.eqb bind].
    unfold readUInt32BE. cbn [length Nat.add].
    replace (10 <=? S (S (length rest))) with false by (symmetry; apply Nat.leb_gt; lia).
    destruct (6 <=? S (S (length rest))); reflexivity.
Qed.

(** Round trip for short payloads: for a payload of at most 125 bytes,
    [createFrame] returns the bytes, and [readFrame] on a parser with no
    pending frame decodes them (followed by any bytes) into one unmasked
    frame with the same payload and [frameLen = 2 + length], returning
    the following bytes.  The decoded [fin] and [opcode] are those of the
    options when the opcode is 1 or 2; any other opcode is sent as a
    non-final binary frame (first byte 2). *)
Theorem createFrame_readFrame_roundtrip (payload rest : buffer) (o : ICreateFrameOptions)
    (st : WebsocketParser) :
  Forall byte_ok payload -> length payload <= 125 -> fragmentedFrame st = None ->
  exists bytes, createFrame payload o = Ok bytes /\
    readFrame st (bytes ++ rest)
    = (pushFrame st
         (mkFrame (o_fin o && ((o_opcode o =? 1)%Z || (o_opcode o =? 2)%Z)) 0 0 0
            (if (o_opcode o =? 1)%Z then 1 else 2)%Z false (length payload) payload
            (2 + length payload)),
       Ok rest).
Proof.
  intros Hok Hlen Hnone.
  destruct (readFrame_createFrame_short payload rest o st Hok Hlen Hnone) as [H1 H2].
  eexists. split; [exact H1 | exact H2].
Qed.

Lemma createFrame_readFrame_roundtrip_witness :
  exists bytes, createFrame [104; 105]%Z (mkOptions 8 true) = Ok bytes /\
    readFrame newParser (bytes ++ [])
    = (pushFrame newParser (mkFrame false 0 0 0 2 false 2 [104; 105]%Z 4), Ok []).
Proof.
  apply (createFrame_readFrame_roundtrip [104; 105]%Z [] (mkOptions 8 true) newParser).
  - repeat constructor; unfold byte_ok; lia.
  - simpl; lia.
  - reflexivity.
Defined.

Lemma onData_createFrame_batch_witness :
  onData newParser (concat [[129; 2; 104; 105]; [2; 1; 7]]%Z)
  = (mkParser [mkFrame true 0 0 0 1 false 2 [104; 105]%Z 4;
               mkFrame false 0 0 0 2 false 1 [7%Z] 3] None, Ok []).
Proof.
  apply (onData_createFrame_batch [([104; 105]%Z, mkOptions 1 true); ([7%Z], mkOptions 8 true)]).
  - reflexivity.
  - repeat constructor; unfold byte_ok; simpl; lia.
  - repeat constructor.
Defined.

Lemma readFrame_client_short_witness :
  readFrame newParser ((128 + 1)%Z :: (128 + Z.of_nat 2)%Z
                       :: [1; 2; 3; 4]%Z ++ unmask [104; 105]%Z 2 [1; 2; 3; 4]%Z ++ [])
  = (pushFrame newParser (mkFrame true 0 0 0 1 true 2 [104; 105]%Z 8), Ok []).
Proof.
  apply (readFrame_client_short newParser true 1 [1; 2; 3; 4]%Z [104; 105]%Z []);
    [reflexivity | lia | reflexivity | simpl; lia].
Defined.

Lemma readFrame_client_ext16_witness :
  readFrame newParser ((128 + 2)%Z :: 254%Z :: (Z.of_nat 130 / 256)%Z
                       :: (Z.of_nat 130 mod 256)%Z
                       :: [1; 2; 3; 4]%Z ++ unmask (repeat 65%Z 130) 130 [1; 2; 3; 4]%Z
                       ++ [129; 0]%Z)
  = (pushFrame newParser (mkFrame true 0 0 0 2 true 130 (repeat 65%Z 130) 138),
     Ok [129; 0]%Z).
Proof.
  apply (readFrame_client_ext16 newParser true 2 [1; 2; 3; 4]%Z (repeat 65%Z 130)
           [129; 0]%Z).
  - reflexivity.
  - lia.
  - reflexivity.
  - simpl. lia.
  - simpl. lia.
Defined.

Lemma readFrame_ext16_127_witness :
  readFrame newParser [130; 126; 0; 127; 1; 0; 0; 0; 0; 0; 0; 0]%Z
  = (newParser, Err UnsupportedLengthError) /\
  (exists st' remainingBuff,
     readFrame newParser [130; 126; 0; 127; 0; 0; 0; 0; 0; 0; 0; 2; 9; 9]%Z
     = (st', Ok remainingBuff) /\
     ((parsedFrames st' = [] /\
       exists ff, fragmentedFrame st' = Some ff /\
         ff_payloadLen ff = 2 /\ ff_byteOffset ff = 12) \/
      (fragmentedFrame st' = None /\
       exists f, parsedFrames st' = [] ++ [f] /\
         payloadLen f = 2 /\ frameLen f = 12 + payloadLen f))) /\
  readFrame newParser [130; 126; 0; 127; 0; 0; 0; 0; 0; 0; 0; 2; 9; 9]%Z
  = (mkParser [mkFrame true 0 0 0 2 false 2 [9; 9]%Z 14] None, Ok []).
Proof.
  split.
  - apply (proj1 (readFrame_ext16_127 newParser true false 2
                    [1; 0; 0; 0; 0; 0; 0; 0]%Z eq_refl ltac:(lia)
                    ltac:(repeat constructor; unfold byte_ok; lia)
                    ltac:(simpl; lia))).
    discriminate.
  - split; [|vm_compute; reflexivity].
    exact (proj2 (readFrame_ext16_127 newParser true false 2
                    [0; 0; 0; 0; 0; 0; 0; 2; 9; 9]%Z eq_refl ltac:(lia)
                    ltac:(repeat constructor; unfold byte_ok; lia)
                    ltac:(simpl; lia)) eq_refl).
Defined.

Lemma createFrame_readFrame_mask_misread_witness :
  exists bytes, createFrame (repeat 5%Z 130) (mkOptions 1 true) = Ok bytes /\
    readFrame newParser bytes
    = (pushFrame newParser
         (mkFrame true 0 0 0 1 true 2 (unmask [5; 5]%Z 2 [5; 5; 5; 5]%Z) 8),
       Ok (repeat 5%Z 124)).
Proof.
  apply (createFrame_readFrame_mask_misread (repeat 5%Z 130) (mkOptions 1 true) newParser).
  - apply Forall_forall. intros x Hx. apply repeat_spec in Hx. subst. unfold byte_ok; lia.
  - rewrite repeat_length. lia.
  - reflexivity.
Defined.

Lemma readFrame_progress_witness : length [129; 0]%Z < length [129; 0; 129; 0]%Z.
Proof.
  apply (readFrame_progress newParser (fst (readFrame newParser [129; 0; 129; 0]%Z))
           [129; 0; 129; 0]%Z [129; 0]%Z);
    [discriminate | vm_compute; reflexivity].
Defined.


Lemma readLoop_rounds_witness :
  readLoop 10 newParser [129; 0; 129; 0]%Z = readLoop 4 newParser [129; 0; 129; 0]%Z.
Proof. apply (readLoop_rounds 10 newParser [129; 0; 129; 0]%Z). simpl. lia. Defined.

Lemma readFrame_throw_state_witness :
  let st := fst (readFrame newParser [129; 2; 5]%Z) in
  let st' := fst (readFrame st [6; 193]%Z) in
  readFrame st [6; 193]%Z = (st', Err (WebSocketError PROTOCOL_ERROR)) /\
  (st' = fst (readFragmentedBuffer st [6; 193]%Z) /\
   (fragmentedFrame st = None -> st' = st)) /\
  fragmentedFrame st <> None /\
  parsedFrames st' = [mkFrame true 0 0 0 1 false 2 [5; 6]%Z 4].
Proof.
  intros st st'.
  assert (H : readFrame st [6; 193]%Z = (st', Err (WebSocketError PROTOCOL_ERROR)))
    by (vm_compute; reflexivity).
  split; [exact H|].
  split; [exact (readFrame_throw_state st st' [6; 193]%Z _ H)|].
  split; [vm_compute; discriminate | vm_compute; reflexivity].
Defined.

Lemma readFrame_empty_chunk_witness :
  readFrame (fst (readFrame newParser [129; 2; 5]%Z)) []
  = (fst (readFrame newParser [129; 2; 5]%Z), Ok []).
Proof.
  apply readFrame_empty_chunk. apply reachable_readFrame, reachable_new.
Defined.

Lemma readFrame_truncated_key_witness :
  readFrame newParser [129; 130; 1; 2]%Z
  = (mkParser [] (Some (mkFragmented true 0 0 0 true 1 2 [] [1; 2]%Z 6)), Ok []) /\
  exists l, parsedFrames (fst (readFrame (fst (readFrame newParser [129; 130; 1; 2]%Z))
                                         [3; 4; 10; 20]%Z))
            = [] ++ mkFrame true 0 0 0 1 true 2 (unmask [3; 4]%Z 2 [1; 2]%Z) 8 :: l.
Proof.
  apply (readFrame_truncated_key newParser true 1 [1; 2]%Z [3; 4; 10; 20]%Z 2);
    [reflexivity | lia | lia | simpl; lia | simpl; lia].
Defined.

Lemma unmask_writes_ok_witness :
  unmask_writes [1; 2; 3]%Z 5 [9; 9; 9; 9]%Z = Ok (unmask [1; 2; 3]%Z 5 [9; 9; 9; 9]%Z).
Proof.
  apply unmask_writes_ok; repeat constructor; unfold byte_ok; lia.
Defined.

Lemma readFrame_header_cut_witness :
  readFrame newParser [(128 + 1)%Z] = (newParser, Err RangeError) /\
  (length [0%Z] < 2 ->
   readFrame newParser [(128 + 1)%Z; (0 + 126)%Z; 0%Z] = (newParser, Err RangeError)) /\
  (length [0%Z] < 8 ->
   readFrame newParser [(128 + 1)%Z; (0 + 127)%Z; 0%Z] = (newParser, Err RangeError)).
Proof. apply (readFrame_header_cut newParser true false 1 [0%Z]); [reflexivity | lia]. Defined.
